(** * brainforge: reinforcement-learning agents (reinforcement/agent.py)

  A shallow embedding of [AgentConfig], [AgentBase], [PG], [DQN] and
  [HillClimbing].  numpy floats are idealised as real numbers, numpy
  arrays of rank one as lists of reals, and every random draw is an
  explicit argument of the operation that makes it.  Operations that can
  raise return an [outcome] next to the state the exception leaves
  behind. *)

From Stdlib Require Import Reals Lra.
From stdpp Require Import gmap strings list fin_maps.

Set Warnings "-abstract-large-number".

(** ** Exceptions and outcomes *)

Inductive exn : Type :=
| KeyError (k : string)
| ValueError
| IndexError
| TypeError
| AttributeError.

Inductive outcome (A : Type) : Type :=
| Return (a : A)
| Raise (e : exn).
Arguments Return {A} a.
Arguments Raise {A} e.

(** ** AgentConfig

  The instance dictionary [self.__dict__] is a finite map from attribute
  names to values; the values are whatever the caller stores, so the
  development is generic in their type.  [alias] is the lookup in the
  dictionary literal of the source; a missing key raises [KeyError],
  which is the error kind the specification calls UnknownOption. *)

Module AgentConfig.
Section Dict.
Context {V : Type}.

Definition init (training_batch_size discount_factor knowledge_transfer_rate
                 epsilon_greedy_rate replay_memory_size : V) : gmap string V :=
  <["xpsize" := replay_memory_size]>
    (<["epsilon" := epsilon_greedy_rate]>
       (<["tau" := knowledge_transfer_rate]>
          (<["gamma" := discount_factor]>
             (<["bsize" := training_batch_size]> ∅)))).

Definition alias_table : gmap string string :=
  list_to_map
    [("training_batch_size", "bsize");
     ("discount_factor", "gamma");
     ("knowledge_transfer_rate", "tau");
     ("epsilon_greedy_rate", "epsilon");
     ("replay_memory_size", "xpsize");
     ("bsize", "bsize"); ("gamma", "gamma");
     ("tau", "tau"); ("xpsize", "xpsize");
     ("epsilon", "epsilon")]%string.

Definition alias (item : string) : outcome string :=
  match alias_table !! item with
  | Some a => Return a
  | None => Raise (KeyError item)
  end.

(** [__getitem__]: [self.__dict__[self.alias(item)]]. *)
Definition getitem (d : gmap string V) (item : string) : outcome V :=
  match alias item with
  | Raise e => Raise e
  | Return a =>
      match d !! a with
      | Some v => Return v
      | None => Raise (KeyError a)
      end
  end.

(** [__setitem__]: [self.__dict__[self.alias(key)] = value]; the
    subscript is evaluated before the store, so a failing [alias] leaves
    the dictionary as it was. *)
Definition setitem (d : gmap string V) (key : string) (value : V)
  : outcome unit * gmap string V :=
  match alias key with
  | Raise e => (Raise e, d)
  | Return a => (Return tt, <[a := value]> d)
  end.

(** A driver that performs key-based stores one after the other and goes
    on after a store that raised. *)
Fixpoint set_all (ops : list (string * V)) (d : gmap string V) : gmap string V :=
  match ops with
  | [] => d
  | (k, v) :: ops' => set_all ops' (setitem d k v).2
  end.

(** The five canonical names with their aliases, as the specification
    lists them. *)
Definition alias_pairs : list (string * string) :=
  [("training_batch_size", "bsize");
   ("discount_factor", "gamma");
   ("knowledge_transfer_rate", "tau");
   ("epsilon_greedy_rate", "epsilon");
   ("replay_memory_size", "xpsize")]%string.

Definition known_names : list string :=
  alias_pairs.*1 ++ alias_pairs.*2.

(** The attributes every constructed configuration holds. *)
Definition complete (d : gmap string V) : Prop :=
  ∀ p, p ∈ alias_pairs → is_Some (d !! p.2).

End Dict.
End AgentConfig.

(** ** numpy on arrays of reals

  A rank-one array is a list of reals and a rank-two array a list of
  rows.  Division is the total division of the reals: where numpy would
  produce [nan] (a mean of no elements, a division by a zero standard
  deviation) the model produces some real, and no statement below relies
  on which. *)

Abbreviation vec := (list R).

#[global] Instance Rlt_decision : RelDecision Rlt := Rlt_dec.

Module np.
Local Open Scope R_scope.

Definition sum (xs : vec) : R := foldr Rplus 0 xs.

Definition mean (xs : vec) : R := sum xs / INR (length xs).

Definition sqdev (m x : R) : R := (x - m) * (x - m).

(** [x.std()]: the population standard deviation. *)
Definition std (xs : vec) : R := sqrt (mean (sqdev (mean xs) <$> xs)).

(** [np.linalg.norm] of a rank-one array. *)
Definition norm (xs : vec) : R := sqrt (sum ((λ x, x * x) <$> xs)).

(** [a op b] with numpy's broadcasting of shapes [(n,)] and [(m,)]. *)
Definition broadcast (f : R → R → R) (a b : vec) : outcome vec :=
  if decide (length a = length b) then Return (zip_with f a b)
  else if decide (length b = 1%nat) then Return ((λ x, f x (hd 0 b)) <$> a)
  else if decide (length a = 1%nat) then Return ((λ y, f (hd 0 a) y) <$> b)
  else Raise ValueError.

(** [a op= b]: the result has to have the shape of [a]. *)
Definition inplace (f : R → R → R) (a b : vec) : outcome vec :=
  if decide (length a = length b) then Return (zip_with f a b)
  else if decide (length b = 1%nat) then Return ((λ x, f x (hd 0 b)) <$> a)
  else Raise ValueError.

(** The values an assignment to a selection of [k] elements stores. *)
Definition fit (k : nat) (rhs : vec) : outcome vec :=
  if decide (length rhs = k) then Return rhs
  else if decide (length rhs = 1%nat) then Return (replicate k (hd 0 rhs))
  else Raise ValueError.

(** [x.max()] of a rank-one array. *)
Definition amax (xs : vec) : outcome R :=
  match xs with
  | [] => Raise ValueError
  | x :: xs' => Return (foldl Rmax x xs')
  end.

Fixpoint argmax_from (best : R) (besti i : nat) (xs : vec) : nat :=
  match xs with
  | [] => besti
  | x :: xs' =>
      if decide (best < x) then argmax_from x i (S i) xs'
      else argmax_from best besti (S i) xs'
  end.

(** [np.argmax]: the index of the first maximum. *)
Definition argmax (xs : vec) : outcome nat :=
  match xs with
  | [] => Raise ValueError
  | x :: xs' => Return (argmax_from x 0 1 xs')
  end.

(** [np.stack(rows, axis=0)]. *)
Definition stack (rows : list vec) : outcome (list vec) :=
  match rows with
  | [] => Raise ValueError
  | r :: rs =>
      if forallb (λ r', Nat.eqb (length r') (length r)) rs then Return rows
      else Raise ValueError
  end.

(** [Y.max(axis=1)]. *)
Fixpoint max_axis1 (Y : list vec) : outcome vec :=
  match Y with
  | [] => Return []
  | row :: Y' =>
      match amax row, max_axis1 Y' with
      | Return m, Return ms => Return (m :: ms)
      | Raise e, _ => Raise e
      | _, Raise e => Raise e
      end
  end.

(** One row of [Y[:, ix] = vals]: the columns are written in the order
    of [ix], so the last write to a repeated column stays. *)
Definition write_columns (ix : list nat) (vals : vec) (row : vec) : vec :=
  foldl (λ r p, <[p.1 := p.2]> r) row (zip ix vals).

(** [Y[:, ix] = rhs] with [ix] a tuple of column indices. *)
Definition assign_columns (Y : list vec) (ix : list nat) (rhs : vec)
  : outcome (list vec) :=
  if forallb (λ a, Nat.ltb a (length (hd [] Y))) ix then
    match fit (length ix) rhs with
    | Return vals => Return (write_columns ix vals <$> Y)
    | Raise e => Raise e
    end
  else Raise IndexError.

(** The number of entries the mask [Y > 0.] selects. *)
Definition count_positive (Y : list vec) : nat :=
  length (filter (λ y, 0 < y) (concat Y)).

(** One row of [Y[Y > 0.] *= R]; returns the factors not yet used. *)
Fixpoint scale_row (row : vec) (vals : vec) : vec * vec :=
  match row with
  | [] => ([], vals)
  | y :: row' =>
      if decide (0 < y) then
        let '(r, rest) := scale_row row' (tl vals) in (y * hd 0 vals :: r, rest)
      else
        let '(r, rest) := scale_row row' vals in (y :: r, rest)
  end.

Fixpoint scale_rows (Y : list vec) (vals : vec) : list vec :=
  match Y with
  | [] => []
  | row :: Y' =>
      let '(r, rest) := scale_row row vals in r :: scale_rows Y' rest
  end.

(** [Y[Y > 0.] *= R]. *)
Definition scale_positive (Y : list vec) (R : vec) : outcome (list vec) :=
  let k := count_positive Y in
  if decide (length R = k) then Return (scale_rows Y R)
  else if decide (length R = 1%nat) then Return (scale_rows Y (replicate k (hd 0 R)))
  else Raise ValueError.

(** [np.eye(n)]. *)
Definition eye (n : nat) : list vec :=
  (λ i, (λ j, if decide (i = j) then 1 else 0) <$> seq 0 n) <$> seq 0 n.
End np.

(** ** Sequencing of steps that can raise

    [try x ← c in st; k] runs the pure step [c]; when it raises, the
    exception leaves the operation with the state [st] reached so far. *)

Definition try_in {A B S : Type} (c : outcome A) (st : S) (k : A → outcome B * S)
  : outcome B * S :=
match c with
| Return a => k a
| Raise e => (Raise e, st)
end.

Notation "'try' x ← c 'in' st ; k" := (try_in c st (λ x, k))
  (at level 10, x name, c at level 100, st at level 9, k at level 200,
   format "'[v' 'try'  x  ←  c  'in'  st ; '/' k ']'").

(** ** Experience buffer and reward discounting (util/rl_util.py) *)

Module Experience.

(** Modelled from the spec: the class [Experience] of util/rl_util.py is
    not among the sources.  An ordered sequence of (input, target) pairs,
    oldest first, with its capacity. *)
Record t : Type := mk { limit : nat; mem : list (vec * vec) }.

(** Modelled from the spec: the constructor of the missing class
    [Experience]; a new buffer is empty. *)
Definition init (capacity : nat) : t := mk capacity [].

(** Modelled from the spec: [Experience.remember], missing from the
    sources.  Appends the paired entries and, when the size exceeds the
    capacity, discards the oldest excess entries. *)
Definition remember (X Y : list vec) (xp : t) : t :=
let all := mem xp ++ zip X Y in
mk (limit xp) (drop (length all - limit xp) all).

(** Modelled from the spec: the random choice inside [Experience.replay],
    missing from the sources.  Sampling without replacement: each draw of
    [ds] removes one entry of the remaining pool. *)
Fixpoint draw {A : Type} (k : nat) (pool : list A) (ds : list nat) : list A :=
match k with
| 0 => []
| S k' =>
    match pool !! (hd 0 ds mod length pool) with
    | Some a => a :: draw k' (delete (hd 0 ds mod length pool) pool) (tl ds)
    | None => []
    end
end.

(** Modelled from the spec: [Experience.replay], missing from the sources.
    Returns [(X, Y)], a random sample of [min n size] pairs, and leaves
    the buffer as it is; empty containers when the buffer is empty. *)
Definition replay (n : nat) (ds : list nat) (xp : t) : list vec * list vec :=
let s := draw n (mem xp) ds in (s.*1, s.*2).

End Experience.

(** Modelled from the spec: [discount_rewards] of util/rl_util.py is not
    among the sources.  The discounted return follows the recurrence
    G_t = r_t + gamma * G_{t+1} with G_{T-1} = r_{T-1}. *)
Fixpoint discount_rewards (rwd : vec) (gamma : R) : vec :=
match rwd with
| [] => []
| r :: rest =>
    match discount_rewards rest gamma with
    | [] => [r]
    | g :: gs => (r + gamma * g)%R :: g :: gs
    end
end.

(** ** The network, an external collaborator

    The object carries its behaviour ([forward], one prediction from the
    current weights; [optimise], one optimisation step giving the cost and
    the new weights) and its state: the flattened weights and, as a record
    of the calls made, the batches [train_on_batch] was called with. *)

Record Network : Type := mkNetwork {
  forward : vec → vec → vec;
  optimise : vec → list vec → list vec → R * vec;
  weights : vec;
  train_calls : list (list vec * list vec) }.

Module Net.

Definition get_weights (net : Network) : vec := weights net.

Definition set_weights (w : vec) (net : Network) : Network :=
mkNetwork (forward net) (optimise net) w (train_calls net).

(** [net.predict(state[None, ...])[0]]. *)
Definition predict (net : Network) (state : vec) : vec :=
forward net (weights net) state.

Definition train_on_batch (X Y : list vec) (net : Network) : R * Network :=
let '(cost, w) := optimise net (weights net) X Y in
(cost, mkNetwork (forward net) (optimise net) w (train_calls net ++ [(X, Y)])).

End Net.

(** ** The hyperparameters an agent reads

    The agents read their configuration through the attributes [bsize],
    [gamma], [tau], [epsilon] and [xpsize] only; this record is the
    configuration with the types the agents use the values at. *)

Record Config : Type := mkConfig {
  bsize : nat; gamma : R; tau : R; epsilon : R; xpsize : nat }.

Definition default_config : Config := mkConfig 300 0.99 0.1 0.1 9000.

(** The random draws one call of [sample] may make: [np.random.uniform()],
    [np.random.choice(actions, p=probabilities)] and
    [np.random.randint(low, high)]. *)
Record Random : Type := mkRandom {
  uniform : R;
  choice : list nat → vec → nat;
  randint : nat → nat → nat }.

(** ** AgentBase *)

Module AgentBase.
Local Open Scope R_scope.

(** [rewards] is a list in [PG] and [DQN] and a number in [HillClimbing];
    the record is generic in its type. *)
Record t (Rw : Type) : Type := mk {
  rewards : Rw;
  net : Network;
  shadow_net : vec;
  xp : Experience.t;
  cfg : Config }.
Arguments mk {Rw}.
Arguments rewards {Rw}.
Arguments net {Rw}.
Arguments shadow_net {Rw}.
Arguments xp {Rw}.
Arguments cfg {Rw}.

Definition with_rewards {Rw Rw' : Type} (r : Rw') (ag : t Rw) : t Rw' :=
mk r (net ag) (shadow_net ag) (xp ag) (cfg ag).

Definition with_net {Rw : Type} (n : Network) (ag : t Rw) : t Rw :=
mk (rewards ag) n (shadow_net ag) (xp ag) (cfg ag).

Definition with_shadow {Rw : Type} (s : vec) (ag : t Rw) : t Rw :=
mk (rewards ag) (net ag) s (xp ag) (cfg ag).

Definition with_xp {Rw : Type} (x : Experience.t) (ag : t Rw) : t Rw :=
mk (rewards ag) (net ag) (shadow_net ag) x (cfg ag).

(** [agentconfig] is [None] or a configuration; [None] stands for the
    configuration of the constructor defaults. *)
Definition init (network : Network) (agentconfig : option Config) : t (list R) :=
let agentconfig := default default_config agentconfig in
mk [] network (Net.get_weights network) (Experience.init (xpsize agentconfig))
   agentconfig.

Definition push_weights {Rw : Type} (ag : t Rw) : outcome R * t Rw :=
let W := Net.get_weights (net ag) in
try diff ← np.broadcast Rminus (shadow_net ag) W in ag;
let D := np.norm diff in
let scaled := (λ s, s * (1 - tau (cfg ag))) <$> shadow_net ag in
try s' ← np.inplace Rplus scaled
           ((λ w, tau (cfg ag) * w) <$> Net.get_weights (net ag))
  in (with_shadow scaled ag);
(Return (D / INR (length W)), with_shadow s' ag).

(** The specification's formulas for [push_weights], to compare the code
    with: the weight drift, the Euclidean norm of shadow minus current
    weights over the parameter count, and the agent after the exponential
    moving average shadow ← (1 - tau) * shadow + tau * current. *)
Definition weight_drift {Rw : Type} (ag : t Rw) : R :=
np.norm (zip_with Rminus (shadow_net ag) (weights (net ag)))
  / INR (length (weights (net ag))).

Definition soft_update {Rw : Type} (ag : t Rw) : t Rw :=
with_shadow
  (zip_with (λ s w, (1 - tau (cfg ag)) * s + tau (cfg ag) * w)
     (shadow_net ag) (weights (net ag))) ag.

(** [ds] are the random draws of [replay].  [None] is the bare [return]. *)
Definition learn_batch {Rw : Type} (ds : list nat) (ag : t Rw)
  : outcome (option (R * R)) * t Rw :=
let '(X, Y) := Experience.replay (bsize (cfg ag)) ds (xp ag) in
let N := length X in
if decide (N = 0%nat) then (Return None, ag)
else
  let '(cost, net') := Net.train_on_batch X Y (net ag) in
  match push_weights (with_net net' ag) with
  | (Return D, ag') => (Return (Some (cost, D)), ag')
  | (Raise e, ag') => (Raise e, ag')
  end.

Definition pull_weights {Rw : Type} (ag : t Rw) : t Rw :=
with_net (Net.set_weights (shadow_net ag) (net ag)) ag.

Definition update {Rw : Type} (ag : t Rw) : t Rw := ag.

End AgentBase.

(** ** PG: policy gradient *)

Module PG.
Local Open Scope R_scope.

Record t : Type := mk {
  base : AgentBase.t (list R);
  actions : list nat;
  action_labels : list vec;
  X : list vec;
  Y : list vec }.

Definition with_base (b : AgentBase.t (list R)) (ag : t) : t :=
mk b (actions ag) (action_labels ag) (X ag) (Y ag).

Definition init (network : Network) (nactions : nat)
    (agentconfig : option Config) : t :=
mk (AgentBase.with_rewards [] (AgentBase.init network agentconfig))
   (seq 0 nactions) (np.eye nactions) [] [].

Definition reset (ag : t) : t :=
mk (AgentBase.with_rewards [] (base ag)) (actions ag) (action_labels ag) [] [].

(** The conditional expression of [sample]: the uniform draw is compared
    with [epsilon] first, and only the chosen branch draws again.
    [np.random.choice] refuses a probability vector whose length is not
    that of [actions], [np.random.randint] an empty range. *)
Definition pick (rng : Random) (probabilities : vec) (ag : t) : outcome nat :=
if decide (uniform rng < epsilon (AgentBase.cfg (base ag))) then
  if decide (length probabilities = length (actions ag) ∧ actions ag ≠ [])
  then Return (choice rng (actions ag) probabilities)
  else Raise ValueError
else
  if decide (0 < length (actions ag))%nat
  then Return (randint rng 0 (length (actions ag)))
  else Raise ValueError.

Definition sample (rng : Random) (state : vec) (reward : R) (ag : t)
  : outcome nat * t :=
let ag1 :=
  mk (AgentBase.with_rewards (AgentBase.rewards (base ag) ++ [reward]) (base ag))
     (actions ag) (action_labels ag) (X ag ++ [state]) (Y ag) in
let probabilities := Net.predict (AgentBase.net (base ag1)) state in
try action ← pick rng probabilities ag1 in ag1;
match action_labels ag1 !! action with
| Some label =>
    (Return action,
     mk (base ag1) (actions ag1) (action_labels ag1) (X ag1) (Y ag1 ++ [label]))
| None => (Raise IndexError, ag1)
end.

(** [self.rewards[1:] + [reward]]. *)
Definition episode_rewards (reward : R) (ag : t) : vec :=
tl (AgentBase.rewards (base ag)) ++ [reward].

(** [R -= R.mean(); R /= R.std()]: the standard deviation is that of the
    centred array. *)
Definition normalise (rw : vec) : vec :=
let centred := (λ x, x - np.mean rw) <$> rw in
(λ x, x / np.std centred) <$> centred.

(** The array [R] of [accumulate] when it reaches the scaling of the
    labels. *)
Definition credit (reward : R) (ag : t) : vec :=
let rw := episode_rewards reward ag in
if decide (0 < gamma (AgentBase.cfg (base ag)))
then normalise (discount_rewards rw (gamma (AgentBase.cfg (base ag))))
else rw.

(** [ds] are the draws of [replay].  The call ends in the [print] whose
    format string has the field [{.2f}], an attribute lookup on a float,
    which raises; a [learn_batch] that returned nothing fails the tuple
    unpacking before that. *)
Definition accumulate (ds : list nat) (reward : R) (ag : t) : outcome unit * t :=
let rw := credit reward ag in
try X' ← np.stack (X ag) in ag;
try Y' ← np.stack (Y ag) in ag;
try Y'' ← np.scale_positive Y' rw in ag;
let ag1 :=
  reset (with_base (AgentBase.with_xp
                      (Experience.remember X' Y'' (AgentBase.xp (base ag)))
                      (base ag)) ag) in
match AgentBase.learn_batch ds (base ag1) with
| (Raise e, b) => (Raise e, with_base b ag1)
| (Return None, b) => (Raise TypeError, with_base b ag1)
| (Return (Some _), b) => (Raise AttributeError, with_base b ag1)
end.

End PG.

(** ** DQN: deep Q network *)

Module DQN.
Local Open Scope R_scope.

Record t : Type := mk {
  base : AgentBase.t (list R);
  X : list vec;
  Q : list vec;
  R : vec;
  A : list nat;
  nactions : nat }.

Definition with_base (b : AgentBase.t (list Rdefinitions.R)) (ag : t) : t :=
mk b (X ag) (Q ag) (R ag) (A ag) (nactions ag).

Definition init (network : Network) (nactions : nat)
    (agentconfig : option Config) : t :=
mk (AgentBase.init network agentconfig) [] [] [] [] nactions.

Definition reset (ag : t) : t := mk (base ag) [] [] [] [] (nactions ag).

(** The conditional expression of [sample]: arg-max when the uniform draw
    is below [epsilon], a uniform action otherwise. *)
Definition pick (rng : Random) (q : vec) (ag : t) : outcome nat :=
if decide (uniform rng < epsilon (AgentBase.cfg (base ag))) then np.argmax q
else
  if decide (0 < nactions ag)%nat then Return (randint rng 0 (nactions ag))
  else Raise ValueError.

Definition sample (rng : Random) (state : vec) (reward : Rdefinitions.R) (ag : t)
  : outcome nat * t :=
let q := Net.predict (AgentBase.net (base ag)) state in
let ag1 := mk (base ag) (X ag ++ [state]) (Q ag ++ [q]) (R ag ++ [reward])
              (A ag) (nactions ag) in
try action ← pick rng q ag1 in ag1;
(Return action,
 mk (base ag1) (X ag1) (Q ag1) (R ag1) (A ag1 ++ [action]) (nactions ag1)).

(** [self.rewards[1:] + [reward]]: the inherited list, not the field [R]. *)
Definition episode_rewards (reward : Rdefinitions.R) (ag : t) : vec :=
tl (AgentBase.rewards (base ag)) ++ [reward].

(** The pair [(X, Y)] that [accumulate] hands to [remember]. *)
Definition targets (reward : Rdefinitions.R) (ag : t)
  : outcome (list vec * list vec) :=
let rw := episode_rewards reward ag in
match np.stack (removelast (X ag)) with
| Raise e => Raise e
| Return X' =>
    match np.stack (tl (Q ag)) with
    | Raise e => Raise e
    | Return Y' =>
        let ix := tl (A ag) in
        match np.max_axis1 Y' with
        | Raise e => Raise e
        | Return m =>
            match np.broadcast Rplus rw
                    ((λ q, gamma (AgentBase.cfg (base ag)) * q) <$> m) with
            | Raise e => Raise e
            | Return rhs =>
                match np.assign_columns Y' ix rhs with
                | Raise e => Raise e
                | Return Y'' => Return (X', Y'')
                end
            end
        end
    end
end.

(** [ds] are the draws of [replay].  A [learn_batch] that returned nothing
    fails the tuple unpacking. *)
Definition accumulate (ds : list nat) (reward : Rdefinitions.R) (ag : t)
  : outcome unit * t :=
try XY ← targets reward ag in ag;
let ag1 :=
  reset (with_base (AgentBase.with_xp
                      (Experience.remember XY.1 XY.2 (AgentBase.xp (base ag)))
                      (base ag)) ag) in
match AgentBase.learn_batch ds (base ag1) with
| (Raise e, b) => (Raise e, with_base b ag1)
| (Return None, b) => (Raise TypeError, with_base b ag1)
| (Return (Some _), b) => (Return tt, with_base b ag1)
end.

(** The operations a driver can invoke on a Deep-Q agent. *)
Inductive op : Type :=
| Reset
| Sample (rng : Random) (state : vec) (reward : Rdefinitions.R)
| Accumulate (ds : list nat) (reward : Rdefinitions.R)
| LearnBatch (ds : list nat)
| PushWeights
| PullWeights
| Update.

(** The state an operation leaves, whether it returned or raised. *)
Definition step (o : op) (ag : t) : t :=
match o with
| Reset => reset ag
| Sample rng state reward => (sample rng state reward ag).2
| Accumulate ds reward => (accumulate ds reward ag).2
| LearnBatch ds => with_base (AgentBase.learn_batch ds (base ag)).2 ag
| PushWeights => with_base (AgentBase.push_weights (base ag)).2 ag
| PullWeights => with_base (AgentBase.pull_weights (base ag)) ag
| Update => with_base (AgentBase.update (base ag)) ag
end.

Definition run (ops : list op) (ag : t) : t := foldl (λ a o, step o a) ag ops.

End DQN.

(** ** HillClimbing *)

Module HillClimbing.
Local Open Scope R_scope.

(** The constructor replaces the inherited list [rewards] by the number
    0: the cumulative reward of the current episode. *)
Record t : Type := mk {
  base : AgentBase.t R;
  bestreward : R }.

Definition init (network : Network) (agentconfig : option Config) : t :=
mk (AgentBase.with_rewards 0 (AgentBase.init network agentconfig)) 0.

Definition reset (ag : t) : t :=
mk (AgentBase.with_rewards 0 (base ag)) (bestreward ag).

(** [reward] is [None] or a number. *)
Definition sample (state : vec) (reward : option R) (ag : t) : outcome nat * t :=
let ag1 :=
  mk (AgentBase.with_rewards
        (AgentBase.rewards (base ag) + default 0 reward) (base ag))
     (bestreward ag) in
let pred := Net.predict (AgentBase.net (base ag1)) state in
try action ← np.argmax pred in ag1;
(Return action, ag1).

(** [np.random.randn] at the shape of [W]: one standard normal draw per
    weight, scaled by 0.1. *)
Definition noise (randn : nat → R) (W : vec) : vec :=
(λ i, randn i * 0.1) <$> seq 0 (length W).

(** [randn] are the Gaussian draws; the argument [reward] is not used. *)
Definition accumulate (randn : nat → R) (reward : R) (ag : t) : t :=
let W := Net.get_weights (AgentBase.net (base ag)) in
let ag1 :=
  if decide (bestreward ag < AgentBase.rewards (base ag))
  then mk (AgentBase.with_shadow W (base ag)) (AgentBase.rewards (base ag))
  else ag in
let ag2 :=
  mk (AgentBase.with_net
        (Net.set_weights (zip_with Rplus W (noise randn W))
           (AgentBase.net (base ag1)))
        (base ag1))
     (bestreward ag1) in
reset ag2.

End HillClimbing.

(** ** The Bellman targets of the specification

    What the specification says [DQN.accumulate] stores, to compare the
    code with: step t, with its state s_t, its predicted Q-vector q_t and
    its action a_t, is kept when a next step exists, and its target is q_t
    with the entry at a_t replaced by r_{t+1} + gamma * max q_{t+1}. *)

Fixpoint bellman_targets (discount : R) (X Q : list vec) (rewards : vec)
    (A : list nat) : list (vec * vec) :=
match X, Q, rewards, A with
| s :: X', q :: Q', _ :: rewards', a :: A' =>
    match Q', rewards' with
    | q_next :: _, r_next :: _ =>
        (s, <[a := (r_next + discount * foldl Rmax (hd 0%R q_next) (tl q_next))%R]> q)
          :: bellman_targets discount X' Q' rewards' A'
    | _, _ => []
    end
| _, _, _, _ => []
end.

(** ** A small network and two sets of draws, for worked examples *)

Module Toy.
Local Open Scope R_scope.

(** The prediction is the observation itself; a training step costs 1 and
    adds 1 to every weight. *)
Definition network : Network :=
mkNetwork (λ _ s, s) (λ w _ _, (1, (λ x, x + 1) <$> w)) [4; 2] [].

Definition config : Config := mkConfig 1 (1 / 2) (1 / 2) (1 / 10) 10.

(** A uniform draw of 0.5, above epsilon = 0.1. *)
Definition above : Random := mkRandom (1 / 2) (λ _ _, 1%nat) (λ _ _, 0%nat).

(** A uniform draw of 0, below epsilon = 0.1. *)
Definition below : Random := mkRandom 0 (λ _ _, 1%nat) (λ _ _, 0%nat).

Definition base : AgentBase.t (list R) :=
AgentBase.mk [] network [1; 1] (Experience.mk 10 [([0], [1])]) config.

(** A policy-gradient agent after two calls of [sample] with the rewards
    [r0] and [r1]. *)
Definition pg (r0 r1 : R) : PG.t :=
(PG.sample below [0; 1] r1
   (PG.sample below [0; 1] r0 (PG.init network 2 (Some config))).2).2.

(** A Deep-Q agent after two calls of [sample]: the first action is the
    uniformly drawn 0, the second the arg-max 1 of [3; 5]. *)
Definition dqn : DQN.t :=
(DQN.sample below [3; 5] 7
   (DQN.sample above [1; 2] 0 (DQN.init network 2 (Some config))).2).2.

(** A hill-climbing agent after one call of [sample] with the reward [r]. *)
Definition hc (r : R) : HillClimbing.t :=
(HillClimbing.sample [1; 2] (Some r) (HillClimbing.init network (Some config))).2.

End Toy.

(** ** DDPG: the stub

    [accumulate], [sample] and [reset] have the body [pass]: they change
    nothing and return [None], so [sample] yields no action. *)

Module DDPG.

Definition t : Type := AgentBase.t (list R).

Definition accumulate (reward : R) (ag : t) : t := ag.

Definition sample (state : vec) (reward : R) (ag : t) : option nat * t :=
(None, ag).

Definition reset (ag : t) : t := ag.

End DDPG.

(** ** Drivers: sequences of calls *)

Module Driver.
Local Open Scope R_scope.

(** [n] calls of [push_weights] in a row. *)
Definition push_times {Rw : Type} (n : nat) (ag : AgentBase.t Rw)
  : AgentBase.t Rw :=
Nat.iter n (λ a, (AgentBase.push_weights a).2) ag.

(** The calls of [DQN.sample] of one episode: the draws and the state of
    each step, with the step rewards apart. *)
Definition dqn_episode (steps : list (Random * vec)) (rs : vec) (ag : DQN.t)
  : DQN.t :=
foldl (λ a sr, (DQN.sample sr.1.1 sr.1.2 sr.2 a).2) ag (zip steps rs).

(** Row [a] of [np.eye(n)]: 1 at index [a], 0 elsewhere. *)
Definition one_hot (n a : nat) : vec :=
(λ j, if decide (a = j) then 1 else 0) <$> seq 0 n.

(** Rows that are one-hot labels over [n] actions. *)
Definition labels (n : nat) (Y : list vec) : Prop :=
Forall (λ row, ∃ a, (a < n)%nat ∧ row = one_hot n a) Y.

(** The operations a driver can invoke on a policy-gradient agent. *)
Inductive pg_op : Type :=
| PGReset
| PGSample (rng : Random) (state : vec) (reward : R)
| PGAccumulate (ds : list nat) (reward : R).

Definition pg_step (o : pg_op) (ag : PG.t) : PG.t :=
match o with
| PGReset => PG.reset ag
| PGSample rng state reward => (PG.sample rng state reward ag).2
| PGAccumulate ds reward => (PG.accumulate ds reward ag).2
end.

Definition pg_run (ops : list pg_op) (ag : PG.t) : PG.t :=
foldl (λ a o, pg_step o a) ag ops.

(** Two Deep-Q agents that agree on everything but the recorded step
    rewards [R]. *)
Definition same_but_R (ag ag' : DQN.t) : Prop :=
DQN.base ag = DQN.base ag' ∧ DQN.X ag = DQN.X ag' ∧ DQN.Q ag = DQN.Q ag' ∧
DQN.A ag = DQN.A ag' ∧ DQN.nactions ag = DQN.nactions ag'.

(** The operations a driver can invoke on a hill-climbing agent. *)
Inductive hc_op : Type :=
| HCReset
| HCSample (state : vec) (reward : option R)
| HCAccumulate (randn : nat → R) (reward : R).

Definition hc_step (o : hc_op) (ag : HillClimbing.t) : HillClimbing.t :=
match o with
| HCReset => HillClimbing.reset ag
| HCSample state reward => (HillClimbing.sample state reward ag).2
| HCAccumulate randn reward => HillClimbing.accumulate randn reward ag
end.

Definition hc_run (ops : list hc_op) (ag : HillClimbing.t) : HillClimbing.t :=
foldl (λ a o, hc_step o a) ag ops.

(** The calls of [HillClimbing.sample] of one episode. *)
Definition hc_episode (steps : list (vec * option R)) (ag : HillClimbing.t)
  : HillClimbing.t :=
foldl (λ a sr, (HillClimbing.sample sr.1 sr.2 a).2) ag steps.

End Driver.

(** * Properties *)

(** ** AgentConfig *)

Section AgentConfigFacts.
Context {V : Type}.
Implicit Types (d : gmap string V) (p : string * string).

Lemma alias_unknown (name : string) :
  name ∉ AgentConfig.known_names → AgentConfig.alias name = Raise (KeyError name).
Proof.
  intros Hname. unfold AgentConfig.alias.
  assert (AgentConfig.alias_table !! name = None) as ->; [|done].
  apply not_elem_of_list_to_map_1.
  intros Hin. apply Hname.
  unfold AgentConfig.known_names, AgentConfig.alias_pairs. simpl in *.
  rewrite !elem_of_cons, elem_of_nil in Hin |- *. tauto.
Qed.

Lemma alias_pair p :
  p ∈ AgentConfig.alias_pairs →
  AgentConfig.alias p.1 = Return p.2 ∧ AgentConfig.alias p.2 = Return p.2.
Proof.
  unfold AgentConfig.alias_pairs. rewrite !elem_of_cons, elem_of_nil.
  intros [->|[->|[->|[->|[->|[]]]]]]; split; vm_compute; reflexivity.
Qed.

Lemma complete_init (bs g ta e x : V) :
  AgentConfig.complete (AgentConfig.init bs g ta e x).
Proof.
  intros p. unfold AgentConfig.alias_pairs. rewrite !elem_of_cons, elem_of_nil.
  intros [->|[->|[->|[->|[->|[]]]]]]; vm_compute; eauto.
Qed.

Lemma complete_setitem d (k : string) (v : V) :
  AgentConfig.complete d → AgentConfig.complete (AgentConfig.setitem d k v).2.
Proof.
  intros Hd p Hp. unfold AgentConfig.setitem.
  destruct (AgentConfig.alias k) as [a|]; simpl; [|by apply Hd].
  destruct (decide (a = p.2)) as [->|Hne].
  - rewrite lookup_insert_eq. eauto.
  - rewrite lookup_insert_ne by done. by apply Hd.
Qed.

Lemma complete_set_all (ops : list (string * V)) d :
  AgentConfig.complete d → AgentConfig.complete (AgentConfig.set_all ops d).
Proof.
  revert d. induction ops as [|[k v] ops IH]; intros d Hd; simpl; [done|].
  apply IH. by apply complete_setitem.
Qed.

Lemma getitem_pair d p :
  p ∈ AgentConfig.alias_pairs → AgentConfig.complete d →
  ∃ v, d !! p.2 = Some v ∧
       AgentConfig.getitem d p.1 = Return v ∧ AgentConfig.getitem d p.2 = Return v.
Proof.
  intros Hp Hd. destruct (Hd p Hp) as [v Hv]. exists v.
  destruct (alias_pair p Hp) as [H1 H2].
  unfold AgentConfig.getitem. by rewrite H1, H2, Hv.
Qed.

Lemma setitem_pair d p (w : V) :
  p ∈ AgentConfig.alias_pairs →
  AgentConfig.getitem (AgentConfig.setitem d p.1 w).2 p.2 = Return w ∧
  AgentConfig.getitem (AgentConfig.setitem d p.2 w).2 p.1 = Return w.
Proof.
  intros Hp. destruct (alias_pair p Hp) as [H1 H2].
  unfold AgentConfig.getitem, AgentConfig.setitem.
  rewrite H1, H2. simpl. by rewrite lookup_insert_eq.
Qed.

(** C8: in every configuration reached from the constructor by key-based
    stores under any names, each canonical name and its alias (in
    particular "discount_factor" and "gamma") read the same stored value,
    and a store under either name is read back under the other. *)
Theorem alias_names_share_value (bs g ta e x : V) (ops : list (string * V)) :
  let d := AgentConfig.set_all ops (AgentConfig.init bs g ta e x) in
  (∃ v, AgentConfig.getitem d "discount_factor" = Return v ∧
        AgentConfig.getitem d "gamma" = Return v) ∧
  Forall (λ p,
    (∃ v, AgentConfig.getitem d p.1 = Return v ∧
          AgentConfig.getitem d p.2 = Return v) ∧
    ∀ w, AgentConfig.getitem (AgentConfig.setitem d p.1 w).2 p.2 = Return w ∧
         AgentConfig.getitem (AgentConfig.setitem d p.2 w).2 p.1 = Return w)
    AgentConfig.alias_pairs.
Proof.
  intros d.
  assert (AgentConfig.complete d) as Hd
    by apply complete_set_all, complete_init.
  split.
  - destruct (getitem_pair d ("discount_factor", "gamma")%string) as (v & _ & H1 & H2);
      [unfold AgentConfig.alias_pairs; apply elem_of_cons; right; apply elem_of_cons; by left|done|eauto].
  - apply Forall_forall. intros p Hp. split.
    + destruct (getitem_pair d p Hp Hd) as (v & _ & H1 & H2). eauto.
    + intros w. by apply setitem_pair.
Qed.

(** C9: for a name that is neither a canonical name nor an alias, reading
    and storing both raise the key error, and the failed store leaves the
    configuration as it was. *)
Theorem unknown_option_raises d (name : string) (v : V) :
  name ∉ AgentConfig.known_names →
  AgentConfig.getitem d name = Raise (KeyError name) ∧
  AgentConfig.setitem d name v = (Raise (KeyError name), d).
Proof.
  intros Hname. unfold AgentConfig.getitem, AgentConfig.setitem.
  by rewrite (alias_unknown name Hname).
Qed.

End AgentConfigFacts.

Lemma unknown_option_raises_witness :
  ("learning_rate"%string ∉ AgentConfig.known_names) ∧
  AgentConfig.getitem (AgentConfig.init 300 99 10 10 900) "learning_rate"
    = Raise (KeyError "learning_rate") ∧
  AgentConfig.setitem (AgentConfig.init 300 99 10 10 900) "learning_rate" 5
    = (Raise (KeyError "learning_rate"), AgentConfig.init 300 99 10 10 900).
Proof.
  assert ("learning_rate"%string ∉ @AgentConfig.known_names) as H.
  { unfold AgentConfig.known_names, AgentConfig.alias_pairs. simpl.
    rewrite !not_elem_of_cons. repeat split; try discriminate.
    apply not_elem_of_nil. }
  split; [exact H|].
  exact (unknown_option_raises (AgentConfig.init 300 99 10 10 900)
           "learning_rate" 5 H).
Defined.

(** ** Arrays *)

Section ArrayFacts.
Local Open Scope R_scope.

Lemma zip_with_average (τ : R) (a b : vec) :
  zip_with Rplus ((λ s, s * (1 - τ)) <$> a) ((λ w, τ * w) <$> b)
  = zip_with (λ s w, (1 - τ) * s + τ * w) a b.
Proof.
  revert b. induction a as [|x a IH]; intros [|y b]; simpl; try done.
  rewrite IH. f_equal. lra.
Qed.

Lemma broadcast_same_length (f : R → R → R) (a b : vec) :
  length a = length b → np.broadcast f a b = Return (zip_with f a b).
Proof. intros H. unfold np.broadcast. by rewrite decide_True. Qed.

Lemma inplace_same_length (f : R → R → R) (a b : vec) :
  length a = length b → np.inplace f a b = Return (zip_with f a b).
Proof. intros H. unfold np.inplace. by rewrite decide_True. Qed.

End ArrayFacts.

(** ** Experience buffer *)

Lemma draw_length {A : Type} (k : nat) (pool : list A) (ds : list nat) :
  length (Experience.draw k pool ds) = k `min` length pool.
Proof.
  revert pool ds. induction k as [|k IH]; intros pool ds; simpl; [done|].
  destruct pool as [|a pool].
  { simpl. lia. }
  set (i := hd 0 ds `mod` length (a :: pool)).
  assert (i < length (a :: pool)) as Hi by (apply Nat.mod_upper_bound; done).
  destruct (lookup_lt_is_Some_2 _ _ Hi) as [b Hb].
  rewrite Hb. simpl. rewrite IH, length_delete by eauto. simpl. lia.
Qed.

Lemma replay_length (n : nat) (ds : list nat) (xp : Experience.t) :
  length (Experience.replay n ds xp).1 = n `min` length (Experience.mem xp) ∧
  length (Experience.replay n ds xp).2 = n `min` length (Experience.mem xp).
Proof.
  unfold Experience.replay. simpl. by rewrite !length_fmap, draw_length.
Qed.

(** ** AgentBase *)

Section AgentBaseFacts.
Context {Rw : Type}.
Implicit Types (ag : AgentBase.t Rw).
Local Open Scope R_scope.

Lemma push_weights_same_shape ag :
  length (AgentBase.shadow_net ag) = length (weights (AgentBase.net ag)) →
  AgentBase.push_weights ag = (Return (AgentBase.weight_drift ag), AgentBase.soft_update ag).
Proof.
  intros Hlen. unfold AgentBase.push_weights, Net.get_weights, try_in.
  rewrite broadcast_same_length by done.
  rewrite inplace_same_length by (by rewrite !length_fmap).
  by rewrite zip_with_average.
Qed.

(** C4: with the shadow weights of the shape of the model's flattened
    weights, [push_weights] returns the Euclidean norm of the old shadow
    minus the current weights divided by the number of parameters, and
    leaves each shadow weight at (1 - tau) * old + tau * current; nothing
    else of the agent changes. *)
Theorem push_weights_drift_and_average ag :
  length (AgentBase.shadow_net ag) = length (weights (AgentBase.net ag)) →
  let W := weights (AgentBase.net ag) in
  let old := AgentBase.shadow_net ag in
  let τ := tau (AgentBase.cfg ag) in
  ∃ ag',
    AgentBase.push_weights ag
      = (Return (np.norm (zip_with Rminus old W) / INR (length W)), ag') ∧
    AgentBase.shadow_net ag' = zip_with (λ s w, (1 - τ) * s + τ * w) old W ∧
    (∀ i s w, old !! i = Some s → W !! i = Some w →
              AgentBase.shadow_net ag' !! i = Some ((1 - τ) * s + τ * w)) ∧
    AgentBase.net ag' = AgentBase.net ag ∧
    AgentBase.rewards ag' = AgentBase.rewards ag ∧
    AgentBase.xp ag' = AgentBase.xp ag ∧
    AgentBase.cfg ag' = AgentBase.cfg ag.
Proof.
  intros Hlen W old τ. exists (AgentBase.soft_update ag).
  assert (AgentBase.shadow_net (AgentBase.soft_update ag)
          = zip_with (λ s w, (1 - τ) * s + τ * w) old W) as Hsh by done.
  split; [by apply push_weights_same_shape|].
  split; [done|]. split; [|done].
  intros i s w Hs Hw. rewrite Hsh, lookup_zip_with, Hs. simpl. by rewrite Hw.
Qed.

(** C5: [learn_batch] samples at most [bsize] pairs; on an empty sample it
    returns nothing and leaves the agent, the model and its record of
    training calls as they were; otherwise it trains the model on the
    sample once, calls [push_weights] on the trained agent and returns the
    cost with the drift. *)
Theorem learn_batch_cases (ds : list nat) ag :
  let XY := Experience.replay (bsize (AgentBase.cfg ag)) ds (AgentBase.xp ag) in
  let trained := Net.train_on_batch XY.1 XY.2 (AgentBase.net ag) in
  (length XY.1 ≤ bsize (AgentBase.cfg ag))%nat ∧
  (XY.1 = [] → AgentBase.learn_batch ds ag = (Return None, ag)) ∧
  (XY.1 ≠ [] →
     train_calls trained.2 = train_calls (AgentBase.net ag) ++ [XY] ∧
     AgentBase.learn_batch ds ag
       = match AgentBase.push_weights (AgentBase.with_net trained.2 ag) with
         | (Return D, ag') => (Return (Some (trained.1, D)), ag')
         | (Raise e, ag') => (Raise e, ag')
         end ∧
     (length (AgentBase.shadow_net ag) = length (weights trained.2) →
      AgentBase.learn_batch ds ag
        = (Return (Some (trained.1, AgentBase.weight_drift (AgentBase.with_net trained.2 ag))),
           AgentBase.soft_update (AgentBase.with_net trained.2 ag)))).
Proof.
  intros XY trained.
  split; [|split].
  - subst XY. destruct (replay_length (bsize (AgentBase.cfg ag)) ds
                          (AgentBase.xp ag)) as [-> _]. lia.
  - intros Hnil. unfold AgentBase.learn_batch. fold XY.
    destruct XY as [X Y]. simpl in Hnil. subst X. done.
  - intros Hne.
    assert (AgentBase.learn_batch ds ag
            = match AgentBase.push_weights (AgentBase.with_net trained.2 ag) with
              | (Return D, ag') => (Return (Some (trained.1, D)), ag')
              | (Raise e, ag') => (Raise e, ag')
              end) as Heq.
    { unfold AgentBase.learn_batch. subst trained. fold XY.
      destruct XY as [X Y]. simpl in Hne |- *.
      rewrite decide_False by (by destruct X).
      by destruct (Net.train_on_batch X Y (AgentBase.net ag)). }
    split; [|split; [exact Heq|]].
    + subst trained. unfold Net.train_on_batch.
      destruct (optimise _ _ _ _) as [c w]. simpl.
      reflexivity.
    + intros Hlen. rewrite Heq.
      by rewrite push_weights_same_shape.
Qed.

End AgentBaseFacts.

Lemma push_weights_drift_and_average_witness :
  ∃ ag',
    AgentBase.push_weights Toy.base
      = (Return (np.norm [1 - 4; 1 - 2] / INR 2), ag')%R ∧
    AgentBase.shadow_net ag'
      = [(1 - 1 / 2) * 1 + 1 / 2 * 4; (1 - 1 / 2) * 1 + 1 / 2 * 2]%R.
Proof.
  destruct (push_weights_drift_and_average Toy.base eq_refl)
    as (ag' & Hret & Hshadow & _).
  exists ag'. split; [exact Hret|exact Hshadow].
Defined.

Lemma learn_batch_cases_witness :
  AgentBase.learn_batch [0] (AgentBase.init Toy.network (Some Toy.config))
  = (Return None, AgentBase.init Toy.network (Some Toy.config)) ∧
  AgentBase.learn_batch [0] Toy.base
  = (Return (Some (1%R, AgentBase.weight_drift
                          (AgentBase.with_net
                             (Net.train_on_batch [[0%R]] [[1%R]] Toy.network).2
                             Toy.base))),
     AgentBase.soft_update
       (AgentBase.with_net (Net.train_on_batch [[0%R]] [[1%R]] Toy.network).2
          Toy.base)).
Proof.
  split.
  - destruct (learn_batch_cases [0]
                (AgentBase.init Toy.network (Some Toy.config)))
      as (_ & Hempty & _).
    exact (Hempty eq_refl).
  - destruct (learn_batch_cases [0] Toy.base) as (_ & _ & Htrain).
    destruct (Htrain ltac:(discriminate)) as (_ & _ & Hret).
    exact (Hret eq_refl).
Defined.

(** ** Action selection in [PG.sample] and [DQN.sample] *)

Section SampleFacts.
Local Open Scope R_scope.
Implicit Types (rng : Random) (state : vec) (reward : R).

Lemma pg_sample_below rng state reward (ag : PG.t) :
  let p := Net.predict (AgentBase.net (PG.base ag)) state in
  uniform rng < epsilon (AgentBase.cfg (PG.base ag)) →
  length p = length (PG.actions ag) → PG.actions ag ≠ [] →
  (choice rng (PG.actions ag) p < length (PG.action_labels ag))%nat →
  (PG.sample rng state reward ag).1 = Return (choice rng (PG.actions ag) p).
Proof.
  intros p Hu Hlen Hne Hin. unfold PG.sample, PG.pick, try_in. simpl.
  rewrite decide_True by done. fold p. rewrite decide_True by done.
  destruct (lookup_lt_is_Some_2 _ _ Hin) as [label ->]. done.
Qed.

Lemma pg_sample_above rng state reward (ag : PG.t) :
  epsilon (AgentBase.cfg (PG.base ag)) <= uniform rng →
  (0 < length (PG.actions ag))%nat →
  (randint rng 0 (length (PG.actions ag)) < length (PG.action_labels ag))%nat →
  (PG.sample rng state reward ag).1
  = Return (randint rng 0 (length (PG.actions ag))).
Proof.
  intros Hu Hpos Hin. unfold PG.sample, PG.pick, try_in. simpl.
  rewrite decide_False by lra. rewrite decide_True by done.
  destruct (lookup_lt_is_Some_2 _ _ Hin) as [label ->]. done.
Qed.

(** The two branches of [PG.sample]: the action drawn from the predicted
    distribution when the uniform draw is below epsilon, the action drawn
    uniformly from the action set when the draw is at least epsilon. *)
Lemma pg_sample_branches rng state reward (ag : PG.t) :
  let p := Net.predict (AgentBase.net (PG.base ag)) state in
  let ε := epsilon (AgentBase.cfg (PG.base ag)) in
  (uniform rng < ε →
   length p = length (PG.actions ag) → PG.actions ag ≠ [] →
   (choice rng (PG.actions ag) p < length (PG.action_labels ag))%nat →
   (PG.sample rng state reward ag).1 = Return (choice rng (PG.actions ag) p)) ∧
  (ε <= uniform rng →
   (0 < length (PG.actions ag))%nat →
   (randint rng 0 (length (PG.actions ag)) < length (PG.action_labels ag))%nat →
   (PG.sample rng state reward ag).1
   = Return (randint rng 0 (length (PG.actions ag)))).
Proof.
  intros p ε. split.
  - by apply pg_sample_below.
  - by apply pg_sample_above.
Qed.

Lemma dqn_sample_below rng state reward (ag : DQN.t) :
  uniform rng < epsilon (AgentBase.cfg (DQN.base ag)) →
  (DQN.sample rng state reward ag).1
  = np.argmax (Net.predict (AgentBase.net (DQN.base ag)) state).
Proof.
  intros Hu. unfold DQN.sample, DQN.pick, try_in. simpl.
  rewrite decide_True by done. by destruct (np.argmax _).
Qed.

Lemma dqn_sample_above rng state reward (ag : DQN.t) :
  epsilon (AgentBase.cfg (DQN.base ag)) <= uniform rng →
  (0 < DQN.nactions ag)%nat →
  (DQN.sample rng state reward ag).1 = Return (randint rng 0 (DQN.nactions ag)).
Proof.
  intros Hu Hpos. unfold DQN.sample, DQN.pick, try_in. simpl.
  rewrite decide_False by lra. by rewrite decide_True.
Qed.

(** The two branches of [DQN.sample]: the arg-max of the predicted
    Q-vector when the uniform draw is below epsilon, the action drawn
    uniformly from the [nactions] actions when the draw is at least
    epsilon. *)
Lemma dqn_sample_branches rng state reward (ag : DQN.t) :
  let ε := epsilon (AgentBase.cfg (DQN.base ag)) in
  (uniform rng < ε →
   (DQN.sample rng state reward ag).1
   = np.argmax (Net.predict (AgentBase.net (DQN.base ag)) state)) ∧
  (ε <= uniform rng → (0 < DQN.nactions ag)%nat →
   (DQN.sample rng state reward ag).1 = Return (randint rng 0 (DQN.nactions ag))).
Proof.
  intros ε. split.
  - by apply dqn_sample_below.
  - by apply dqn_sample_above.
Qed.

Lemma argmax_pair (x y : R) : x < y → np.argmax [x; y] = Return 1%nat.
Proof. intros H. unfold np.argmax. simpl. by rewrite decide_True. Qed.

End SampleFacts.

(** C2 against the code: an agent with two actions and epsilon = 0.1 whose
    model predicts the distribution [0; 1].  With a uniform draw of 0.5,
    at least epsilon, [PG.sample] returns the uniformly drawn action 0
    (of probability 0 under the prediction) and not the action 1 drawn
    from the distribution; with a uniform draw of 0, below epsilon, it
    returns the action drawn from the distribution and not the uniformly
    drawn one. *)
Theorem pg_sample_epsilon_inverted :
  let ag := PG.init Toy.network 2 (Some Toy.config) in
  let ε := epsilon (AgentBase.cfg (PG.base ag)) in
  let p := Net.predict (AgentBase.net (PG.base ag)) [0; 1]%R in
  p = [0; 1]%R ∧
  ((ε <= uniform Toy.above)%R ∧
   (PG.sample Toy.above [0; 1]%R 0%R ag).1 = Return 0 ∧
   randint Toy.above 0 (length (PG.actions ag)) = 0 ∧
   choice Toy.above (PG.actions ag) p = 1) ∧
  ((uniform Toy.below < ε)%R ∧
   (PG.sample Toy.below [0; 1]%R 0%R ag).1 = Return 1 ∧
   choice Toy.below (PG.actions ag) p = 1 ∧
   randint Toy.below 0 (length (PG.actions ag)) = 0).
Proof.
  intros ag ε p. subst ε. split; [reflexivity|]. split.
  - split; [simpl; lra|]. split; [|done].
    apply pg_sample_above; simpl; [lra|lia|lia].
  - split; [simpl; lra|]. split; [|done].
    apply pg_sample_below; simpl; [lra|reflexivity|discriminate|lia].
Qed.

(** C3 against the code: an agent with two actions and epsilon = 0.1 whose
    model predicts the Q-vector [1; 2].  With a uniform draw of 0.5, at
    least epsilon, [DQN.sample] returns the uniformly drawn action 0 and
    not the arg-max 1; with a uniform draw of 0, below epsilon, it returns
    the arg-max and not the uniformly drawn action. *)
Theorem dqn_sample_epsilon_inverted :
  let ag := DQN.init Toy.network 2 (Some Toy.config) in
  let ε := epsilon (AgentBase.cfg (DQN.base ag)) in
  let q := Net.predict (AgentBase.net (DQN.base ag)) [1; 2]%R in
  np.argmax q = Return 1 ∧
  ((ε <= uniform Toy.above)%R ∧
   (DQN.sample Toy.above [1; 2]%R 0%R ag).1 = Return 0 ∧
   randint Toy.above 0 (DQN.nactions ag) = 0) ∧
  ((uniform Toy.below < ε)%R ∧
   (DQN.sample Toy.below [1; 2]%R 0%R ag).1 = Return 1 ∧
   randint Toy.below 0 (DQN.nactions ag) = 0).
Proof.
  intros ag ε q. subst ε.
  assert (np.argmax q = Return 1) as Hmax by (apply argmax_pair; lra).
  split; [done|]. split.
  - split; [simpl; lra|]. split; [|done].
    apply dqn_sample_above; simpl; [lra|lia].
  - split; [simpl; lra|]. split; [|done].
    rewrite dqn_sample_below by (simpl; lra). done.
Qed.

(** ** Mean and standard deviation *)

Section StatisticsFacts.
Local Open Scope R_scope.
Implicit Types (xs : vec).

Lemma sum_shifted (m : R) xs :
  np.sum ((λ x, x - m) <$> xs) = np.sum xs - INR (length xs) * m.
Proof.
  induction xs as [|x xs IH]; [simpl; lra|].
  change (np.sum ((λ x, x - m) <$> x :: xs))
    with (x - m + np.sum ((λ x, x - m) <$> xs)).
  change (np.sum (x :: xs)) with (x + np.sum xs).
  change (length (x :: xs)) with (S (length xs)).
  rewrite IH, S_INR. lra.
Qed.

Lemma sum_scaled (k : R) (f : R → R) xs :
  np.sum ((λ x, f x / k) <$> xs) = np.sum (f <$> xs) / k.
Proof.
  induction xs as [|x xs IH]; [simpl; unfold Rdiv; lra|].
  change (np.sum ((λ x, f x / k) <$> x :: xs))
    with (f x / k + np.sum ((λ x, f x / k) <$> xs)).
  change (np.sum (f <$> x :: xs)) with (f x + np.sum (f <$> xs)).
  rewrite IH. unfold Rdiv. lra.
Qed.

Lemma mean_centred xs :
  xs ≠ [] → np.mean ((λ x, x - np.mean xs) <$> xs) = 0.
Proof.
  intros Hne. unfold np.mean at 1. rewrite sum_shifted, length_fmap.
  unfold np.mean.
  assert (INR (length xs) ≠ 0) by (apply not_0_INR; by destruct xs).
  field. done.
Qed.

Lemma mean_scaled (k : R) xs :
  np.mean ((λ x, x / k) <$> xs) = np.mean xs / k.
Proof.
  unfold np.mean. rewrite length_fmap.
  rewrite (sum_scaled k (λ x, x)), list_fmap_id. unfold Rdiv. lra.
Qed.

(** Centring leaves the standard deviation as it is. *)
Lemma std_centred xs :
  np.std ((λ x, x - np.mean xs) <$> xs) = np.std xs.
Proof.
  destruct xs as [|x0 xs0]; [done|].
  set (xs := x0 :: xs0). unfold np.std.
  rewrite mean_centred by done. rewrite <- list_fmap_compose.
  f_equal. unfold np.mean at 1 3. rewrite !length_fmap. f_equal. f_equal.
  apply list_fmap_ext. intros i x _. unfold np.sqdev. simpl. lra.
Qed.

(** An array of mean 0 divided by its non-zero standard deviation has
    standard deviation 1. *)
Lemma std_scaled xs :
  np.mean xs = 0 → np.std xs ≠ 0 →
  np.std ((λ x, x / np.std xs) <$> xs) = 1.
Proof.
  intros Hmean Hstd. set (s := np.std xs) in *.
  set (v := np.mean (np.sqdev (np.mean xs) <$> xs)).
  assert (s * s = v) as Hv.
  { destruct (Rle_or_lt 0 v) as [Hpos|Hneg]; [by apply sqrt_sqrt|].
    exfalso. apply Hstd. apply sqrt_neg_0. fold v. lra. }
  assert (v ≠ 0) as Hv0.
  { intros Hz. apply Hstd. unfold s, np.std. fold v. rewrite Hz. apply sqrt_0. }
  unfold np.std at 1. rewrite mean_scaled, Hmean.
  replace (0 / s) with 0 by (unfold Rdiv; lra).
  rewrite <- list_fmap_compose.
  assert ((np.sqdev 0 ∘ (λ x, x / s)) <$> xs
          = (λ x, np.sqdev 0 x / (s * s)) <$> xs) as ->.
  { apply list_fmap_ext. intros i x _. unfold np.sqdev. simpl. field. done. }
  unfold np.mean at 1. rewrite sum_scaled, length_fmap.
  fold (np.mean (np.sqdev 0 <$> xs)). rewrite <- Hmean. fold v.
  replace (np.sum (np.sqdev (np.mean xs) <$> xs) / (s * s)
           / INR (length xs)) with (v / (s * s)).
  2:{ unfold v, np.mean. rewrite length_fmap. unfold Rdiv. lra. }
  rewrite Hv, Rdiv_diag by done. apply sqrt_1.
Qed.

Lemma normalise_mean_std xs :
  np.std xs ≠ 0 →
  np.mean (PG.normalise xs) = 0 ∧ np.std (PG.normalise xs) = 1.
Proof.
  intros Hstd.
  assert (xs ≠ []) as Hne.
  { intros ->. apply Hstd. unfold np.std, np.mean. simpl.
    replace (0 / 0) with 0 by (unfold Rdiv; lra). apply sqrt_0. }
  unfold PG.normalise. simpl.
  set (c := (λ x, x - np.mean xs) <$> xs).
  assert (np.mean c = 0) as Hc by (by apply mean_centred).
  assert (np.std c ≠ 0) as Hs by (unfold c; by rewrite std_centred).
  split.
  - rewrite mean_scaled, Hc. unfold Rdiv. lra.
  - by apply std_scaled.
Qed.

End StatisticsFacts.

(** ** The reward sequence of [PG.accumulate] *)

Section PolicyGradientFacts.
Local Open Scope R_scope.

Lemma pg_sample_records (rng : Random) (state : vec) (reward : R) (ag : PG.t) :
  let ag' := (PG.sample rng state reward ag).2 in
  AgentBase.rewards (PG.base ag') = AgentBase.rewards (PG.base ag) ++ [reward] ∧
  AgentBase.cfg (PG.base ag') = AgentBase.cfg (PG.base ag) ∧
  PG.X ag' = PG.X ag ++ [state].
Proof.
  unfold PG.sample, try_in. simpl.
  destruct (PG.pick _ _ _) as [action|e]; [|done].
  by destruct (PG.action_labels ag !! action).
Qed.

(** C6, as the code has it: the reward sequence drops the first recorded
    reward and appends the terminal one; for gamma > 0 it is discounted
    and normalised, and whenever the standard deviation of the discounted
    sequence is not zero the result has mean 0 and standard deviation 1;
    for gamma = 0 the sequence is used as it is. *)
Theorem pg_reward_sequence (reward : R) (ag : PG.t) :
  let γ := gamma (AgentBase.cfg (PG.base ag)) in
  let rw := tl (AgentBase.rewards (PG.base ag)) ++ [reward] in
  PG.episode_rewards reward ag = rw ∧
  (0 < γ →
   PG.credit reward ag = PG.normalise (discount_rewards rw γ) ∧
   (np.std (discount_rewards rw γ) ≠ 0 →
    np.mean (PG.credit reward ag) = 0 ∧ np.std (PG.credit reward ag) = 1)) ∧
  (γ = 0 → PG.credit reward ag = rw).
Proof.
  intros γ rw. split; [done|]. split.
  - intros Hγ.
    assert (PG.credit reward ag = PG.normalise (discount_rewards rw γ)) as ->.
    { unfold PG.credit. by rewrite decide_True. }
    split; [done|]. apply normalise_mean_std.
  - intros Hγ. unfold PG.credit. fold γ. rewrite decide_False by lra. done.
Qed.

Lemma pg_toy_state (r0 r1 : R) :
  AgentBase.rewards (PG.base (Toy.pg r0 r1)) = [r0; r1] ∧
  AgentBase.cfg (PG.base (Toy.pg r0 r1)) = Toy.config.
Proof.
  unfold Toy.pg.
  destruct (pg_sample_records Toy.below [0; 1] r1
              (PG.sample Toy.below [0; 1] r0
                 (PG.init Toy.network 2 (Some Toy.config))).2) as (-> & -> & _).
  destruct (pg_sample_records Toy.below [0; 1] r0
              (PG.init Toy.network 2 (Some Toy.config))) as (-> & -> & _).
  done.
Qed.

Lemma pg_toy_credit (r0 r1 reward : R) :
  PG.credit reward (Toy.pg r0 r1)
  = PG.normalise [r1 + 1 / 2 * reward; reward].
Proof.
  unfold PG.credit, PG.episode_rewards.
  destruct (pg_toy_state r0 r1) as [-> ->]. simpl.
  rewrite decide_True by lra. done.
Qed.

End PolicyGradientFacts.

Lemma pg_reward_sequence_witness :
  PG.episode_rewards 3 (Toy.pg 0 1) = [1; 3]%R ∧
  np.mean (PG.credit 3 (Toy.pg 0 1)) = 0%R ∧
  np.std (PG.credit 3 (Toy.pg 0 1)) = 1%R.
Proof.
  destruct (pg_reward_sequence 3 (Toy.pg 0 1)) as (Hseq & Hpos & _).
  destruct (pg_toy_state 0 1) as [Hrw Hcfg].
  rewrite Hrw, Hcfg in *. simpl in *.
  split; [exact Hseq|].
  destruct Hpos as [_ Hnorm]; [lra|].
  apply Hnorm. unfold np.std.
  apply Rgt_not_eq, Rlt_gt, sqrt_lt_R0.
  unfold np.mean, np.sum, np.sqdev. simpl. lra.
Defined.

(** C6 fails as stated: after an episode of two steps (T = 2 > 1) whose
    rewards are all 0, with gamma = 0.5 > 0, the discounted sequence is
    constant, its standard deviation is 0, and the sequence the code goes
    on with does not have standard deviation 1. *)
Lemma pg_constant_rewards_not_unit_std :
  length (PG.X (Toy.pg 0 0)) = 2 ∧
  (0 < gamma (AgentBase.cfg (PG.base (Toy.pg 0 0))))%R ∧
  ¬ (np.mean (PG.credit 0 (Toy.pg 0 0)) = 0%R ∧
     np.std (PG.credit 0 (Toy.pg 0 0)) = 1%R).
Proof.
  split; [|split].
  - unfold Toy.pg.
    destruct (pg_sample_records Toy.below [0; 1]%R 0%R
                (PG.sample Toy.below [0; 1]%R 0%R
                   (PG.init Toy.network 2 (Some Toy.config))).2) as (_ & _ & ->).
    destruct (pg_sample_records Toy.below [0; 1]%R 0%R
                (PG.init Toy.network 2 (Some Toy.config))) as (_ & _ & ->).
    done.
  - destruct (pg_toy_state 0 0) as [_ ->]. simpl. lra.
  - intros [_ Hstd]. rewrite pg_toy_credit in Hstd.
    assert (PG.normalise [0 + 1 / 2 * 0; 0] = [0; 0])%R as Hzero.
    { unfold PG.normalise. simpl. f_equal; [|f_equal].
      - apply Rmult_eq_0_compat_r. unfold np.mean, np.sum. simpl. lra.
      - apply Rmult_eq_0_compat_r. unfold np.mean, np.sum. simpl. lra. }
    rewrite Hzero in Hstd. unfold np.std in Hstd.
    replace (np.mean (np.sqdev (np.mean [0; 0]) <$> [0; 0]))%R with 0%R in Hstd.
    + rewrite sqrt_0 in Hstd. lra.
    + unfold np.mean, np.sum, np.sqdev. simpl. lra.
Qed.

(** ** What the shared operations leave alone *)

Section FrameFacts.
Context {Rw : Type}.
Implicit Types (ag : AgentBase.t Rw).

Lemma push_weights_frame ag :
  let ag' := (AgentBase.push_weights ag).2 in
  AgentBase.rewards ag' = AgentBase.rewards ag ∧
  AgentBase.net ag' = AgentBase.net ag ∧
  AgentBase.xp ag' = AgentBase.xp ag ∧
  AgentBase.cfg ag' = AgentBase.cfg ag.
Proof.
  unfold AgentBase.push_weights, try_in.
  destruct (np.broadcast _ _ _); [|done].
  by destruct (np.inplace _ _ _).
Qed.

Lemma learn_batch_frame (ds : list nat) ag :
  let ag' := (AgentBase.learn_batch ds ag).2 in
  AgentBase.rewards ag' = AgentBase.rewards ag ∧
  AgentBase.xp ag' = AgentBase.xp ag ∧
  AgentBase.cfg ag' = AgentBase.cfg ag.
Proof.
  unfold AgentBase.learn_batch.
  destruct (Experience.replay _ _ _) as [X Y].
  destruct (decide _); [done|].
  destruct (Net.train_on_batch _ _ _) as [cost net'].
  destruct (push_weights_frame (AgentBase.with_net net' ag)) as (Hr & _ & Hx & Hc).
  by destruct (AgentBase.push_weights _) as [[D|e] ag'].
Qed.

End FrameFacts.

(** ** HillClimbing *)

Section HillClimbingFacts.
Local Open Scope R_scope.

Lemma noise_lookup (randn : nat → R) (W : vec) (i : nat) (w : R) :
  W !! i = Some w →
  zip_with Rplus W (HillClimbing.noise randn W) !! i = Some (w + randn i * 0.1).
Proof.
  intros Hw. unfold HillClimbing.noise.
  rewrite lookup_zip_with, Hw. simpl.
  rewrite list_lookup_fmap, lookup_seq_lt by (by eapply lookup_lt_Some).
  done.
Qed.

Lemma perturbed_length (randn : nat → R) (W : vec) :
  length (zip_with Rplus W (HillClimbing.noise randn W)) = length W.
Proof.
  apply length_zip_with_l_eq. unfold HillClimbing.noise.
  by rewrite length_fmap, length_seq.
Qed.

(** C7: every call of [HillClimbing.accumulate] overwrites the live
    weights by the current weights plus 0.1 times one Gaussian draw per
    weight; the shadow weights and the best reward become the current
    weights and the cumulative reward exactly when the cumulative reward
    is strictly above the previous best; the accumulator is reset to 0 and
    the experience buffer is left as it was. *)
Theorem hill_climbing_accumulate (randn : nat → R) (reward : R)
    (ag : HillClimbing.t) :
  let W := weights (AgentBase.net (HillClimbing.base ag)) in
  let total := AgentBase.rewards (HillClimbing.base ag) in
  let ag' := HillClimbing.accumulate randn reward ag in
  length (weights (AgentBase.net (HillClimbing.base ag'))) = length W ∧
  (∀ i w, W !! i = Some w →
     weights (AgentBase.net (HillClimbing.base ag')) !! i
     = Some (w + randn i * 0.1)) ∧
  (HillClimbing.bestreward ag < total →
     AgentBase.shadow_net (HillClimbing.base ag') = W ∧
     HillClimbing.bestreward ag' = total) ∧
  (¬ HillClimbing.bestreward ag < total →
     AgentBase.shadow_net (HillClimbing.base ag')
     = AgentBase.shadow_net (HillClimbing.base ag) ∧
     HillClimbing.bestreward ag' = HillClimbing.bestreward ag) ∧
  AgentBase.rewards (HillClimbing.base ag') = 0 ∧
  AgentBase.xp (HillClimbing.base ag') = AgentBase.xp (HillClimbing.base ag).
Proof.
  intros W total ag'. subst ag'. unfold HillClimbing.accumulate.
  fold W. fold total.
  destruct (decide (HillClimbing.bestreward ag < total)) as [Hgt|Hle]; simpl;
    fold W.
  - split; [|split; [|split; [|split]]]; try done.
    + apply perturbed_length.
    + intros i w Hw. by apply noise_lookup.
  - split; [|split; [|split; [|split]]]; try done.
    + apply perturbed_length.
    + intros i w Hw. by apply noise_lookup.
Qed.

End HillClimbingFacts.

Lemma hill_climbing_accumulate_witness :
  AgentBase.shadow_net
    (HillClimbing.base (HillClimbing.accumulate (λ _, 1%R) 0%R (Toy.hc 3)))
  = [4; 2]%R ∧
  HillClimbing.bestreward (HillClimbing.accumulate (λ _, 1%R) 0%R (Toy.hc 3))
  = (0 + 3)%R ∧
  AgentBase.shadow_net
    (HillClimbing.base (HillClimbing.accumulate (λ _, 1%R) 0%R (Toy.hc (-3))))
  = [4; 2]%R ∧
  HillClimbing.bestreward (HillClimbing.accumulate (λ _, 1%R) 0%R (Toy.hc (-3)))
  = 0%R.
Proof.
  destruct (hill_climbing_accumulate (λ _, 1%R) 0%R (Toy.hc 3))
    as (_ & _ & Hbetter & _).
  destruct (hill_climbing_accumulate (λ _, 1%R) 0%R (Toy.hc (-3)))
    as (_ & _ & _ & Hworse & _).
  simpl in Hbetter, Hworse.
  destruct Hbetter as [Hs Hb]; [lra|].
  destruct Hworse as [Hs' Hb']; [lra|].
  repeat split; assumption.
Defined.

(** ** DQN *)

Section DeepQFacts.
Local Open Scope R_scope.

Lemma dqn_sample_base (rng : Random) (state : vec) (reward : R) (ag : DQN.t) :
  DQN.base (DQN.sample rng state reward ag).2 = DQN.base ag.
Proof.
  unfold DQN.sample, try_in. simpl. by destruct (DQN.pick _ _ _).
Qed.

Lemma dqn_accumulate_rewards (ds : list nat) (reward : R) (ag : DQN.t) :
  AgentBase.rewards (DQN.base (DQN.accumulate ds reward ag).2)
  = AgentBase.rewards (DQN.base ag).
Proof.
  unfold DQN.accumulate, try_in.
  destruct (DQN.targets reward ag) as [XY|e]; [|done].
  match goal with
  | |- context [AgentBase.learn_batch ds ?b] =>
      destruct (learn_batch_frame ds b) as (Hr & _ & _);
      destruct (AgentBase.learn_batch ds b) as [[[c|]|e] b']
  end; simpl in *; by rewrite Hr.
Qed.

Lemma dqn_step_rewards (o : DQN.op) (ag : DQN.t) :
  AgentBase.rewards (DQN.base (DQN.step o ag))
  = AgentBase.rewards (DQN.base ag).
Proof.
  destruct o as [|rng state reward|ds reward|ds| | |]; simpl; try done.
  - by rewrite dqn_sample_base.
  - apply dqn_accumulate_rewards.
  - by destruct (learn_batch_frame ds (DQN.base ag)) as (-> & _).
  - by destruct (push_weights_frame (DQN.base ag)) as (-> & _).
Qed.

Lemma dqn_run_rewards (ops : list DQN.op) (ag : DQN.t) :
  AgentBase.rewards (DQN.base (DQN.run ops ag))
  = AgentBase.rewards (DQN.base ag).
Proof.
  revert ag. induction ops as [|o ops IH]; intros ag; [done|].
  unfold DQN.run in *. simpl. by rewrite IH, dqn_step_rewards.
Qed.

(** C10: whatever operations a Deep-Q agent has gone through since its
    construction, its inherited list [rewards] is still empty, so the
    reward array [self.rewards[1:] + [reward]] of [accumulate] is the
    one-element array of the final reward. *)
Theorem dqn_rewards_stay_empty (network : Network) (nactions : nat)
    (agentconfig : option Config) (ops : list DQN.op) (reward : R) :
  let ag := DQN.run ops (DQN.init network nactions agentconfig) in
  AgentBase.rewards (DQN.base ag) = [] ∧
  DQN.episode_rewards reward ag = [reward] ∧
  length (DQN.episode_rewards reward ag) = 1%nat.
Proof.
  intros ag.
  assert (AgentBase.rewards (DQN.base ag) = []) as Hempty
    by (subst ag; by rewrite dqn_run_rewards).
  unfold DQN.episode_rewards. by rewrite Hempty.
Qed.

Lemma dqn_sample_returns (rng : Random) (state : vec) (reward : R)
    (ag : DQN.t) (action : nat) :
  (DQN.sample rng state reward ag).1 = Return action →
  (DQN.sample rng state reward ag).2
  = DQN.mk (DQN.base ag) (DQN.X ag ++ [state])
      (DQN.Q ag ++ [Net.predict (AgentBase.net (DQN.base ag)) state])
      (DQN.R ag ++ [reward]) (DQN.A ag ++ [action]) (DQN.nactions ag).
Proof.
  unfold DQN.sample, try_in. simpl.
  destruct (DQN.pick _ _ _) as [a|e]; simpl; [|done].
  by intros [= ->].
Qed.

Lemma dqn_toy_state :
  Toy.dqn
  = DQN.mk (AgentBase.init Toy.network (Some Toy.config))
      [[1; 2]; [3; 5]] [[1; 2]; [3; 5]] [0; 7] [0; 1]%nat 2.
Proof.
  unfold Toy.dqn.
  assert ((DQN.sample Toy.above [1; 2] 0
             (DQN.init Toy.network 2 (Some Toy.config))).1 = Return 0%nat) as H0.
  { apply dqn_sample_above; simpl; [lra|lia]. }
  rewrite (dqn_sample_returns _ _ _ _ _ H0). simpl.
  match goal with |- (DQN.sample ?r ?s ?w ?a).2 = _ =>
    assert ((DQN.sample r s w a).1 = Return 1%nat) as H1
  end.
  { rewrite dqn_sample_below by (simpl; lra). apply argmax_pair. lra. }
  by rewrite (dqn_sample_returns _ _ _ _ _ H1).
Qed.

Lemma dqn_toy_targets :
  DQN.targets 10 Toy.dqn = Return ([[1; 2]], [[3; 10 + 1 / 2 * 5]]).
Proof.
  rewrite dqn_toy_state. unfold DQN.targets, DQN.episode_rewards. simpl.
  rewrite Rmax_right by lra. reflexivity.
Qed.

End DeepQFacts.

(** C1 against the code: an episode of two steps with the predicted
    Q-vectors [1; 2] and [3; 5], the actions 0 and 1, the step rewards 0
    and 7, gamma = 0.5 and the final reward 10.  The specification's
    target for the kept state [1; 2] is the first Q-vector with its entry
    at action 0 replaced by 7 + 0.5 * 5; the code stores the second
    Q-vector with its entry at action 1 replaced by 10 + 0.5 * 5. *)
Theorem dqn_stored_targets_diverge :
  let stored :=
    Experience.mem (AgentBase.xp (DQN.base (DQN.accumulate [0] 10 Toy.dqn).2)) in
  let claimed :=
    bellman_targets (gamma (AgentBase.cfg (DQN.base Toy.dqn)))
      (DQN.X Toy.dqn) (DQN.Q Toy.dqn) (DQN.R Toy.dqn) (DQN.A Toy.dqn) in
  stored = [([1; 2], [3; 10 + 1 / 2 * 5])]%R ∧
  claimed = [([1; 2], [7 + 1 / 2 * 5; 2])]%R ∧
  stored ≠ claimed.
Proof.
  intros stored claimed.
  assert (stored = [([1; 2], [3; 10 + 1 / 2 * 5])]%R) as Hs.
  { subst stored. unfold DQN.accumulate, try_in. rewrite dqn_toy_targets.
    match goal with
    | |- context [AgentBase.learn_batch ?ds ?b] =>
        destruct (learn_batch_frame ds b) as (_ & Hx & _);
        destruct (AgentBase.learn_batch ds b) as [[[c|]|e] b']
    end; simpl in *; rewrite Hx; by rewrite dqn_toy_state. }
  assert (claimed = [([1; 2], [7 + 1 / 2 * 5; 2])]%R) as Hc.
  { subst claimed. rewrite dqn_toy_state. simpl.
    by rewrite Rmax_right by lra. }
  split; [done|]. split; [done|].
  rewrite Hs, Hc. intros [= H1 H2]. lra.
Qed.

(** * Further properties of the code *)

(** ** AgentConfig as a store of five options *)

Section AgentConfigStore.
Context {V : Type}.
Implicit Types (d : gmap string V).

(** The attribute names the constructor assigns. *)
Lemma alias_range (k a : string) :
  AgentConfig.alias k = Return a →
  a ∈ ["bsize"; "gamma"; "tau"; "epsilon"; "xpsize"]%string.
Proof.
  unfold AgentConfig.alias.
  destruct (AgentConfig.alias_table !! k) as [a'|] eqn:Hk; [|done].
  intros [= ->]. apply elem_of_list_to_map_2 in Hk.
  rewrite !elem_of_cons, elem_of_nil in Hk. rewrite !elem_of_cons, elem_of_nil.
  destruct Hk as [[= _ <-]|[[= _ <-]|[[= _ <-]|[[= _ <-]|[[= _ <-]|
                 [[= _ <-]|[[= _ <-]|[[= _ <-]|[[= _ <-]|[[= _ <-]|[]]]]]]]]]]];
    tauto.
Qed.

(** X1: every constructor argument is read back under its keyword name
    and under its short name. *)
Theorem init_reads_back (bs g ta e x : V) :
  let d := AgentConfig.init bs g ta e x in
  (AgentConfig.getitem d "training_batch_size" = Return bs ∧
   AgentConfig.getitem d "bsize" = Return bs) ∧
  (AgentConfig.getitem d "discount_factor" = Return g ∧
   AgentConfig.getitem d "gamma" = Return g) ∧
  (AgentConfig.getitem d "knowledge_transfer_rate" = Return ta ∧
   AgentConfig.getitem d "tau" = Return ta) ∧
  (AgentConfig.getitem d "epsilon_greedy_rate" = Return e ∧
   AgentConfig.getitem d "epsilon" = Return e) ∧
  (AgentConfig.getitem d "replay_memory_size" = Return x ∧
   AgentConfig.getitem d "xpsize" = Return x).
Proof. repeat split; vm_compute; reflexivity. Qed.

(** X2: the name an alias resolves to resolves to itself, so resolving
    twice is resolving once. *)
Theorem alias_idempotent (k a : string) :
  AgentConfig.alias k = Return a → AgentConfig.alias a = Return a.
Proof.
  intros Hk. apply alias_range in Hk.
  rewrite !elem_of_cons, elem_of_nil in Hk.
  destruct Hk as [->|[->|[->|[->|[->|[]]]]]]; vm_compute; reflexivity.
Qed.

(** X3: a store under one name leaves the value read under every name of
    another option as it was. *)
Theorem setitem_keeps_other_options d (k k' a a' : string) (v : V) :
  AgentConfig.alias k = Return a → AgentConfig.alias k' = Return a' →
  a ≠ a' →
  AgentConfig.getitem (AgentConfig.setitem d k v).2 k' = AgentConfig.getitem d k'.
Proof.
  intros Hk Hk' Hne. unfold AgentConfig.getitem, AgentConfig.setitem.
  rewrite Hk, Hk'. simpl. by rewrite lookup_insert_ne.
Qed.

(** X4: key-based stores never add an attribute: after the constructor
    and any stores, under any names, the instance dictionary holds the
    five attributes of the constructor and nothing else. *)
Theorem stores_keep_attributes (bs g ta e x : V) (ops : list (string * V)) :
  dom (AgentConfig.set_all ops (AgentConfig.init bs g ta e x))
  = list_to_set (C := gset string)
      ["bsize"; "gamma"; "tau"; "epsilon"; "xpsize"]%string.
Proof.
  assert (dom (AgentConfig.init bs g ta e x)
          = list_to_set (C := gset string)
              ["bsize"; "gamma"; "tau"; "epsilon"; "xpsize"]%string) as Hinit.
  { unfold AgentConfig.init. rewrite !dom_insert_L, dom_empty_L. simpl.
    set_solver. }
  revert Hinit. generalize (AgentConfig.init bs g ta e x).
  induction ops as [|[k v] ops IH]; intros d Hd; simpl; [done|].
  apply IH. unfold AgentConfig.setitem.
  destruct (AgentConfig.alias k) as [a|] eqn:Hk; simpl; [|done].
  rewrite dom_insert_L, Hd. apply alias_range in Hk.
  apply (elem_of_list_to_set (C := gset string)) in Hk. set_solver.
Qed.

End AgentConfigStore.

Lemma alias_idempotent_witness :
  AgentConfig.alias "discount_factor" = Return "gamma"%string ∧
  AgentConfig.alias "gamma" = Return "gamma"%string.
Proof.
  assert (AgentConfig.alias "discount_factor" = Return "gamma"%string) as H
    by (vm_compute; reflexivity).
  split; [exact H|exact (alias_idempotent _ _ H)].
Defined.

Lemma setitem_keeps_other_options_witness :
  AgentConfig.getitem
    (AgentConfig.setitem (AgentConfig.init 300 99 10 10 900) "gamma" 5).2
    "knowledge_transfer_rate"
  = AgentConfig.getitem (AgentConfig.init 300 99 10 10 900)
      "knowledge_transfer_rate".
Proof.
  apply (setitem_keeps_other_options (AgentConfig.init 300 99 10 10 900)
           "gamma" "knowledge_transfer_rate" "gamma" "tau" 5).
  - vm_compute; reflexivity.
  - vm_compute; reflexivity.
  - discriminate.
Defined.

(** ** Soft updates of the shadow weights *)

Section SoftUpdateFacts.
Context {Rw : Type}.
Implicit Types (ag : AgentBase.t Rw).
Local Open Scope R_scope.

Lemma sum_squares_nonneg (xs : vec) : 0 <= np.sum ((λ x, x * x) <$> xs).
Proof.
  induction xs as [|x xs IH]; [simpl; lra|].
  change (np.sum ((λ x, x * x) <$> x :: xs))
    with (x * x + np.sum ((λ x, x * x) <$> xs)).
  pose proof (Rle_0_sqr x) as Hsq. unfold Rsqr in Hsq. lra.
Qed.

Lemma sum_squares_self (s : vec) :
  np.sum ((λ x, x * x) <$> zip_with Rminus s s) = 0.
Proof.
  induction s as [|x s IH]; [done|].
  change (np.sum ((λ x, x * x) <$> zip_with Rminus (x :: s) (x :: s)))
    with ((x - x) * (x - x) + np.sum ((λ x, x * x) <$> zip_with Rminus s s)).
  rewrite IH. lra.
Qed.

Lemma sum_squares_zero (a b : vec) :
  length a = length b →
  np.sum ((λ x, x * x) <$> zip_with Rminus a b) = 0 → a = b.
Proof.
  revert b. induction a as [|x a IH]; intros [|y b] Hlen Hsum; try done.
  change (np.sum ((λ x, x * x) <$> zip_with Rminus (x :: a) (y :: b)))
    with ((x - y) * (x - y) + np.sum ((λ x, x * x) <$> zip_with Rminus a b))
    in Hsum.
  pose proof (sum_squares_nonneg (zip_with Rminus a b)) as Hpos.
  pose proof (Rle_0_sqr (x - y)) as Hsq. unfold Rsqr in Hsq.
  assert ((x - y) * (x - y) = 0) as Hxy by lra.
  assert (np.sum ((λ x, x * x) <$> zip_with Rminus a b) = 0) as Hrest by lra.
  f_equal.
  - apply Rmult_integral in Hxy. lra.
  - apply IH; [by injection Hlen|done].
Qed.

Lemma zip_with_keep_left (f : R → R → R) (a b : vec) :
  length a = length b → (∀ x y, f x y = x) → zip_with f a b = a.
Proof.
  intros Hlen Hf. revert b Hlen.
  induction a as [|x a IH]; intros [|y b] Hlen; try done.
  simpl. rewrite Hf, IH; [done|by injection Hlen].
Qed.

Lemma zip_with_twice (f g : R → R → R) (a b : vec) :
  zip_with f (zip_with g a b) b = zip_with (λ x y, f (g x y) y) a b.
Proof.
  revert b. induction a as [|x a IH]; intros [|y b]; try done.
  simpl. by rewrite IH.
Qed.




(** X7: with the model's weights W held fixed, [n] calls of
    [push_weights] leave each shadow weight at w + (1 - tau)^n * (s - w):
    the distance to the model's weights shrinks by the factor 1 - tau at
    every call. *)
Theorem push_times_closed_form (n : nat) ag :
  length (AgentBase.shadow_net ag) = length (weights (AgentBase.net ag)) →
  AgentBase.shadow_net (Driver.push_times n ag)
  = zip_with (λ s w, w + (1 - tau (AgentBase.cfg ag)) ^ n * (s - w))
      (AgentBase.shadow_net ag) (weights (AgentBase.net ag)) ∧
  AgentBase.net (Driver.push_times n ag) = AgentBase.net ag ∧
  AgentBase.cfg (Driver.push_times n ag) = AgentBase.cfg ag.
Proof.
  intros Hlen. induction n as [|n (IHs & IHn & IHc)].
  - split; [|done]. simpl. symmetry. apply zip_with_keep_left; [done|].
    intros x y. lra.
  - unfold Driver.push_times in *. simpl.
    rewrite push_weights_same_shape.
    2:{ rewrite IHs, IHn, length_zip_with. lia. }
    unfold AgentBase.soft_update. simpl.
    rewrite IHs, IHn, IHc, zip_with_twice.
    split; [|done]. apply zip_with_ext; [|done..].
    intros s w. simpl. ring.
Qed.

(** X8: when the shapes agree and the model has parameters, the drift
    [push_weights] returns is not negative, and it is 0 exactly when the
    shadow weights equal the model's weights. *)
Theorem drift_zero_iff_in_sync ag :
  length (AgentBase.shadow_net ag) = length (weights (AgentBase.net ag)) →
  weights (AgentBase.net ag) ≠ [] →
  ∃ D, (AgentBase.push_weights ag).1 = Return D ∧ 0 <= D ∧
       (D = 0 ↔ AgentBase.shadow_net ag = weights (AgentBase.net ag)).
Proof.
  intros Hlen Hne. rewrite push_weights_same_shape by done.
  exists (AgentBase.weight_drift ag). split; [done|].
  unfold AgentBase.weight_drift.
  set (d := zip_with Rminus (AgentBase.shadow_net ag)
              (weights (AgentBase.net ag))).
  assert (0 < INR (length (weights (AgentBase.net ag)))) as Hn.
  { apply lt_0_INR. destruct (weights (AgentBase.net ag)); [done|simpl; lia]. }
  pose proof (sqrt_pos (np.sum ((λ x, x * x) <$> d))) as Hsq.
  pose proof (Rinv_0_lt_compat _ Hn) as Hinv.
  split; [unfold np.norm, Rdiv; nra|]. split.
  - intros HD. apply sum_squares_zero; [done|]. fold d.
    apply sqrt_eq_0; [apply sum_squares_nonneg|].
    unfold np.norm, Rdiv in HD. nra.
  - intros Heq. unfold np.norm, d. rewrite Heq, sum_squares_self, sqrt_0.
    unfold Rdiv. lra.
Qed.

(** X9: when the shadow weights and the model's weights differ in length
    and neither has length 1, [push_weights] raises the value error of the
    failed subtraction and the agent stays as it is. *)
Theorem push_weights_shape_mismatch ag :
  length (AgentBase.shadow_net ag) ≠ length (weights (AgentBase.net ag)) →
  length (AgentBase.shadow_net ag) ≠ 1%nat →
  length (weights (AgentBase.net ag)) ≠ 1%nat →
  AgentBase.push_weights ag = (Raise ValueError, ag).
Proof.
  intros Hne Hs Hw.
  unfold AgentBase.push_weights, try_in, np.broadcast, Net.get_weights.
  by rewrite !decide_False.
Qed.

End SoftUpdateFacts.


Lemma push_times_closed_form_witness :
  AgentBase.shadow_net (Driver.push_times 2 Toy.base)
  = [4 + (1 - 1 / 2) ^ 2 * (1 - 4); 2 + (1 - 1 / 2) ^ 2 * (1 - 2)]%R.
Proof.
  destruct (push_times_closed_form 2 Toy.base eq_refl) as [H _]. exact H.
Defined.

Lemma drift_zero_iff_in_sync_witness :
  ∃ D, (AgentBase.push_weights Toy.base).1 = Return D ∧ (0 <= D)%R ∧
       (D = 0%R ↔ [1; 1]%R = [4; 2]%R).
Proof.
  exact (drift_zero_iff_in_sync Toy.base eq_refl ltac:(discriminate)).
Defined.

Lemma push_weights_shape_mismatch_witness :
  AgentBase.push_weights (AgentBase.with_shadow [1; 2; 3]%R Toy.base)
  = (Raise ValueError, AgentBase.with_shadow [1; 2; 3]%R Toy.base).
Proof.
  apply push_weights_shape_mismatch; simpl; lia.
Defined.

(** ** One-hot labels and their scaling *)

Section OneHotFacts.
Local Open Scope R_scope.

Lemma eye_lookup (n a : nat) :
  (a < n)%nat → np.eye n !! a = Some (Driver.one_hot n a).
Proof.
  intros Ha. unfold np.eye, Driver.one_hot.
  by rewrite list_lookup_fmap, lookup_seq_lt.
Qed.

Lemma eye_length (n : nat) : length (np.eye n) = n.
Proof. unfold np.eye. by rewrite length_fmap, length_seq. Qed.

Lemma one_hot_length (n a : nat) : length (Driver.one_hot n a) = n.
Proof. unfold Driver.one_hot. by rewrite length_fmap, length_seq. Qed.

Lemma one_hot_lookup (n a j : nat) :
  (j < n)%nat →
  Driver.one_hot n a !! j = Some (if decide (a = j) then 1 else 0).
Proof.
  intros Hj. unfold Driver.one_hot.
  by rewrite list_lookup_fmap, lookup_seq_lt.
Qed.

Lemma zeros_off_diagonal (a s m : nat) :
  (a < s ∨ s + m ≤ a)%nat →
  (λ j, if decide (a = j) then 1 else 0) <$> seq s m = replicate m 0.
Proof.
  revert s. induction m as [|m IH]; intros s Ha; [done|].
  simpl. rewrite decide_False by lia. f_equal. apply IH. lia.
Qed.

Lemma one_hot_split (n a : nat) :
  (a < n)%nat →
  Driver.one_hot n a = replicate a 0 ++ 1 :: replicate (n - S a) 0.
Proof.
  intros Ha. unfold Driver.one_hot.
  assert (∃ b, n = (a + S b)%nat) as [b ->] by (exists (n - S a)%nat; lia).
  replace (a + S b - S a)%nat with b by lia.
  rewrite seq_app, fmap_app. simpl.
  rewrite decide_True by done.
  rewrite (zeros_off_diagonal a 0 a) by lia.
  do 2 f_equal. apply (zeros_off_diagonal a (S a) b). lia.
Qed.

Lemma scale_row_zeros (k : nat) (vals : vec) :
  np.scale_row (replicate k 0) vals = (replicate k 0, vals).
Proof.
  induction k as [|k IH]; [done|].
  simpl. rewrite decide_False by lra. by rewrite IH.
Qed.

Lemma scale_row_one_hot (n a : nat) (r : R) (rest : vec) :
  (a < n)%nat →
  np.scale_row (Driver.one_hot n a) (r :: rest)
  = ((λ y, y * r) <$> Driver.one_hot n a, rest).
Proof.
  intros Ha. rewrite one_hot_split by done.
  generalize (n - S a)%nat. intros b. clear Ha.
  induction a as [|a IH].
  - simpl. rewrite decide_True by lra. simpl. rewrite scale_row_zeros.
    f_equal. f_equal. rewrite fmap_replicate. f_equal. lra.
  - simpl. rewrite decide_False by lra. rewrite IH. f_equal. f_equal. lra.
Qed.

Lemma positive_one_hot (n a : nat) :
  (a < n)%nat → filter (λ y, 0 < y) (Driver.one_hot n a) = [1].
Proof.
  intros Ha. rewrite one_hot_split by done.
  generalize (n - S a)%nat. intros b. clear Ha.
  assert (∀ k, filter (λ y : R, 0 < y) (replicate k 0) = []) as Hz.
  { induction k as [|k IH]; [done|]. simpl.
    rewrite filter_cons_False by lra. done. }
  rewrite filter_app, Hz, filter_cons_True by lra. by rewrite Hz.
Qed.

Lemma count_positive_labels (n : nat) (Y : list vec) :
  Driver.labels n Y → np.count_positive Y = length Y.
Proof.
  unfold np.count_positive. induction 1 as [|row Y (a & Ha & ->) _ IH]; [done|].
  simpl. rewrite filter_app, length_app, positive_one_hot by done.
  simpl. by rewrite IH.
Qed.

Lemma scale_rows_labels (n : nat) (Y : list vec) (rw : vec) :
  Driver.labels n Y → length rw = length Y →
  np.scale_rows Y rw = zip_with (λ row r, (λ y, y * r) <$> row) Y rw.
Proof.
  intros HY. revert rw.
  induction HY as [|row Y (a & Ha & ->) _ IH]; intros [|r rw] Hlen; try done.
  simpl. rewrite scale_row_one_hot by done. f_equal.
  apply IH. by injection Hlen.
Qed.

Lemma stack_labels (n : nat) (Y : list vec) :
  Driver.labels n Y → Y ≠ [] → np.stack Y = Return Y.
Proof.
  intros HY Hne. destruct Y as [|row Y]; [done|]. unfold np.stack.
  apply Forall_cons in HY as [(a & Ha & ->) HY].
  assert (forallb (λ r', Nat.eqb (length r') (length (Driver.one_hot n a))) Y
          = true) as ->; [|done].
  apply forallb_forall. intros r Hr.
  apply list_elem_of_In in Hr.
  rewrite Forall_forall in HY. destruct (HY r Hr) as (b & Hb & ->).
  rewrite !one_hot_length. apply Nat.eqb_refl.
Qed.

Lemma discount_rewards_length (rwd : vec) (g : R) :
  length (discount_rewards rwd g) = length rwd.
Proof.
  induction rwd as [|r rwd IH]; [done|]. simpl.
  destruct (discount_rewards rwd g) as [|x xs]; simpl in *; by rewrite <- IH.
Qed.

Lemma credit_length (reward : R) (ag : PG.t) :
  AgentBase.rewards (PG.base ag) ≠ [] →
  length (PG.credit reward ag) = length (AgentBase.rewards (PG.base ag)).
Proof.
  intros Hne.
  assert (length (PG.episode_rewards reward ag)
          = length (AgentBase.rewards (PG.base ag))) as Hlen.
  { unfold PG.episode_rewards. rewrite length_app. simpl.
    destruct (AgentBase.rewards (PG.base ag)); [done|simpl; lia]. }
  unfold PG.credit. destruct (decide _); [|done].
  unfold PG.normalise. simpl.
  by rewrite !length_fmap, discount_rewards_length.
Qed.

End OneHotFacts.

(** ** The scratch lists and the stored targets of the policy-gradient agent *)

Section PolicyGradientEpisode.
Local Open Scope R_scope.

Lemma pg_sample_returns (rng : Random) (state : vec) (reward : R) (ag : PG.t)
    (n a : nat) :
  PG.action_labels ag = np.eye n →
  (PG.sample rng state reward ag).1 = Return a →
  (a < n)%nat ∧
  (PG.sample rng state reward ag).2
  = PG.mk (AgentBase.with_rewards (AgentBase.rewards (PG.base ag) ++ [reward])
             (PG.base ag))
      (PG.actions ag) (PG.action_labels ag) (PG.X ag ++ [state])
      (PG.Y ag ++ [Driver.one_hot n a]).
Proof.
  intros Heye. unfold PG.sample, try_in. simpl.
  destruct (PG.pick _ _ _) as [a'|e]; simpl; [|done].
  destruct (PG.action_labels ag !! a') as [label|] eqn:Hl; simpl; [|done].
  intros [= ->]. rewrite Heye in Hl.
  assert (a < n)%nat as Ha.
  { apply lookup_lt_Some in Hl. by rewrite eye_length in Hl. }
  rewrite eye_lookup in Hl by done. injection Hl as <-. done.
Qed.

(** X10: when [PG.sample] returns the action [a] on an agent whose labels
    are the rows of the identity matrix, [a] is one of the [n] actions and
    the call has appended the state, the reward and the one-hot row of
    [a], each to its list. *)
Theorem pg_sample_appends_one_hot (rng : Random) (state : vec) (reward : R)
    (ag : PG.t) (n a : nat) :
  PG.action_labels ag = np.eye n →
  (PG.sample rng state reward ag).1 = Return a →
  let ag' := (PG.sample rng state reward ag).2 in
  (a < n)%nat ∧
  PG.X ag' = PG.X ag ++ [state] ∧
  AgentBase.rewards (PG.base ag') = AgentBase.rewards (PG.base ag) ++ [reward] ∧
  (∃ label, PG.Y ag' = PG.Y ag ++ [label] ∧ length label = n ∧
     ∀ j, (j < n)%nat → label !! j = Some (if decide (a = j) then 1 else 0)).
Proof.
  intros Heye Hret ag'. subst ag'.
  destruct (pg_sample_returns rng state reward ag n a Heye Hret) as [Ha ->].
  simpl. repeat split; try done.
  exists (Driver.one_hot n a). split; [done|].
  split; [apply one_hot_length|]. intros j Hj. by apply one_hot_lookup.
Qed.

Lemma learn_batch_raises {Rw : Type} (ds : list nat) (b : AgentBase.t Rw)
    (e : exn) :
  (AgentBase.learn_batch ds b).1 = Raise e → e = ValueError.
Proof.
  unfold AgentBase.learn_batch.
  destruct (Experience.replay _ _ _) as [X Y].
  destruct (decide _); [done|].
  destruct (Net.train_on_batch _ _ _) as [cost net'].
  unfold AgentBase.push_weights, try_in, np.broadcast, np.inplace.
  repeat (destruct (decide _); simpl; try done); by intros [= <-].
Qed.

Lemma stack_raises (rows : list vec) (e : exn) :
  np.stack rows = Raise e → e = ValueError.
Proof.
  unfold np.stack. destruct rows as [|r rs]; [by intros [= <-]|].
  destruct (forallb _ _); [done|by intros [= <-]].
Qed.

Lemma stack_returns (rows Y : list vec) :
  np.stack rows = Return Y →
  Y = rows ∧ rows ≠ [] ∧
  ∀ r r', r ∈ rows → r' ∈ rows → length r = length r'.
Proof.
  unfold np.stack. destruct rows as [|r0 rs]; [done|].
  destruct (forallb _ _) eqn:Hall; [|done]. intros [= <-].
  split; [done|]. split; [done|].
  assert (∀ r, r ∈ r0 :: rs → length r = length r0) as Hlen.
  { intros r Hr. apply elem_of_cons in Hr as [->|Hr]; [done|].
    rewrite forallb_forall in Hall. apply Nat.eqb_eq, Hall.
    by apply list_elem_of_In. }
  intros r r' Hr Hr'. by rewrite (Hlen r), (Hlen r').
Qed.

Lemma scale_positive_raises (Y : list vec) (rw : vec) (e : exn) :
  np.scale_positive Y rw = Raise e → e = ValueError.
Proof.
  unfold np.scale_positive.
  repeat (destruct (decide _); try done). by intros [= <-].
Qed.

(** X11: [PG.accumulate] never returns: every call ends in a value error,
    in the type error of unpacking the empty result of [learn_batch], or,
    once the batch was learned, in the attribute error of the format
    string of its [print]. *)
Theorem pg_accumulate_always_raises (ds : list nat) (reward : R) (ag : PG.t) :
  (PG.accumulate ds reward ag).1 = Raise ValueError ∨
  (PG.accumulate ds reward ag).1 = Raise TypeError ∨
  (PG.accumulate ds reward ag).1 = Raise AttributeError.
Proof.
  unfold PG.accumulate, try_in.
  destruct (np.stack (PG.X ag)) as [X'|e] eqn:HX.
  2:{ left. simpl. by rewrite (stack_raises _ _ HX). }
  destruct (np.stack (PG.Y ag)) as [Y'|e] eqn:HY.
  2:{ left. simpl. by rewrite (stack_raises _ _ HY). }
  destruct (np.scale_positive Y' (PG.credit reward ag)) as [Y''|e] eqn:HS.
  2:{ left. simpl. by rewrite (scale_positive_raises _ _ _ HS). }
  match goal with
  | |- context [AgentBase.learn_batch ds ?b] =>
      pose proof (learn_batch_raises ds b) as Hraise;
      destruct (AgentBase.learn_batch ds b) as [[[c|]|e] b']
  end; simpl; [tauto|tauto|].
  left. by rewrite (Hraise e eq_refl).
Qed.

Lemma pg_accumulate_state (ds : list nat) (reward : R) (ag : PG.t) :
  (PG.accumulate ds reward ag).2 = ag ∨
  ∃ X' Y' Y'',
    np.stack (PG.X ag) = Return X' ∧ np.stack (PG.Y ag) = Return Y' ∧
    np.scale_positive Y' (PG.credit reward ag) = Return Y'' ∧
    let ag' := (PG.accumulate ds reward ag).2 in
    PG.X ag' = [] ∧ PG.Y ag' = [] ∧ AgentBase.rewards (PG.base ag') = [] ∧
    PG.actions ag' = PG.actions ag ∧
    PG.action_labels ag' = PG.action_labels ag ∧
    AgentBase.xp (PG.base ag')
    = Experience.remember X' Y'' (AgentBase.xp (PG.base ag)).
Proof.
  unfold PG.accumulate, try_in.
  destruct (np.stack (PG.X ag)) as [X'|e]; [|by left].
  destruct (np.stack (PG.Y ag)) as [Y'|e]; [|by left].
  destruct (np.scale_positive Y' (PG.credit reward ag)) as [Y''|e] eqn:HS;
    [|by left].
  right. exists X', Y', Y''. repeat (split; [done|]).
  match goal with
  | |- context [AgentBase.learn_batch ds ?b] =>
      destruct (learn_batch_frame ds b) as (Hr & Hx & _);
      destruct (AgentBase.learn_batch ds b) as [[[c|]|e] b']
  end; simpl in *; rewrite Hr, Hx; done.
Qed.

Lemma pg_step_keeps (n : nat) (o : Driver.pg_op) (ag : PG.t) :
  PG.action_labels ag = np.eye n →
  length (PG.X ag) = length (AgentBase.rewards (PG.base ag)) →
  (length (PG.Y ag) ≤ length (PG.X ag))%nat →
  Driver.labels n (PG.Y ag) →
  let ag' := Driver.pg_step o ag in
  PG.action_labels ag' = np.eye n ∧
  length (PG.X ag') = length (AgentBase.rewards (PG.base ag')) ∧
  (length (PG.Y ag') ≤ length (PG.X ag'))%nat ∧
  Driver.labels n (PG.Y ag').
Proof.
  intros Heye HX HY Hlab. destruct o as [|rng state reward|ds reward]; simpl.
  - repeat split; try done; try (simpl; lia). constructor.
  - destruct ((PG.sample rng state reward ag).1) as [a|e] eqn:Hret.
    + destruct (pg_sample_returns rng state reward ag n a Heye Hret) as [Ha ->].
      simpl. rewrite !length_app. simpl. repeat split; try done; try lia.
      apply Forall_app. split; [done|]. apply Forall_singleton. eauto.
    + revert Hret. unfold PG.sample, try_in. simpl.
      destruct (PG.pick _ _ _) as [a|e']; simpl.
      * destruct (PG.action_labels ag !! a); simpl; [done|]. intros _.
        rewrite !length_app. simpl. repeat split; try done; lia.
      * intros _. rewrite !length_app. simpl. repeat split; try done; lia.
  - destruct (pg_accumulate_state ds reward ag) as [->|(X' & Y' & Y'' & _ & _ & _ & H)];
      [done|].
    destruct H as (-> & -> & -> & _ & -> & _). repeat split; try done.
    constructor.
Qed.

(** X12: whatever calls a policy-gradient agent has gone through since
    its construction, it has recorded as many rewards as states and at
    most as many labels (exactly as many when every [sample] returned),
    and every label is a one-hot row over its actions. *)
Theorem pg_scratch_in_step (network : Network) (n : nat)
    (agentconfig : option Config) (ops : list Driver.pg_op) :
  let ag := Driver.pg_run ops (PG.init network n agentconfig) in
  length (PG.X ag) = length (AgentBase.rewards (PG.base ag)) ∧
  (length (PG.Y ag) ≤ length (PG.X ag))%nat ∧
  Driver.labels n (PG.Y ag).
Proof.
  intros ag.
  assert (PG.action_labels ag = np.eye n ∧
          length (PG.X ag) = length (AgentBase.rewards (PG.base ag)) ∧
          (length (PG.Y ag) ≤ length (PG.X ag))%nat ∧
          Driver.labels n (PG.Y ag)) as (_ & H); [|exact H].
  subst ag. unfold Driver.pg_run.
  assert (PG.action_labels (PG.init network n agentconfig) = np.eye n ∧
          length (PG.X (PG.init network n agentconfig))
          = length (AgentBase.rewards (PG.base (PG.init network n agentconfig))) ∧
          (length (PG.Y (PG.init network n agentconfig))
           ≤ length (PG.X (PG.init network n agentconfig)))%nat ∧
          Driver.labels n (PG.Y (PG.init network n agentconfig))) as Hinit.
  { simpl. repeat split; try done. constructor. }
  revert Hinit. generalize (PG.init network n agentconfig).
  induction ops as [|o ops IH]; intros ag (H1 & H2 & H3 & H4); [done|].
  simpl. apply IH. by apply pg_step_keeps.
Qed.

(** X13: on an agent whose labels are one-hot rows, one per recorded
    reward, and whose states stack, [PG.accumulate] hands to the buffer
    the states with, for each step, its label multiplied by that step's
    entry of the reward array, and clears the scratch lists, before it
    raises. *)
Theorem pg_accumulate_stores (ds : list nat) (reward : R) (ag : PG.t)
    (n : nat) (X' : list vec) :
  Driver.labels n (PG.Y ag) → PG.Y ag ≠ [] →
  length (PG.Y ag) = length (AgentBase.rewards (PG.base ag)) →
  np.stack (PG.X ag) = Return X' →
  let ag' := (PG.accumulate ds reward ag).2 in
  AgentBase.xp (PG.base ag')
  = Experience.remember X'
      (zip_with (λ row r, (λ y, y * r) <$> row) (PG.Y ag) (PG.credit reward ag))
      (AgentBase.xp (PG.base ag)) ∧
  PG.X ag' = [] ∧ PG.Y ag' = [] ∧ AgentBase.rewards (PG.base ag') = [].
Proof.
  intros Hlab Hne Hlen HX ag'.
  assert (length (PG.credit reward ag) = length (PG.Y ag)) as Hcredit.
  { rewrite credit_length; [done|].
    intros Hnil. rewrite Hnil in Hlen. by destruct (PG.Y ag). }
  assert (np.scale_positive (PG.Y ag) (PG.credit reward ag)
          = Return (zip_with (λ row r, (λ y, y * r) <$> row) (PG.Y ag)
                      (PG.credit reward ag))) as HS.
  { unfold np.scale_positive.
    rewrite (count_positive_labels n) by done.
    rewrite decide_True by done. f_equal. by apply (scale_rows_labels n). }
  destruct (pg_accumulate_state ds reward ag)
    as [Hsame|(X1 & Y1 & Y2 & HX1 & HY1 & HS1 & H)].
  - exfalso. revert Hsame. unfold PG.accumulate, try_in.
    rewrite HX, (stack_labels n) by done. rewrite HS.
    match goal with
    | |- context [AgentBase.learn_batch ds ?b] =>
        destruct (AgentBase.learn_batch ds b) as [[[c|]|e] b']
    end; simpl; intros Heq; apply (f_equal PG.Y) in Heq; simpl in Heq;
      by destruct (PG.Y ag).
  - rewrite HX in HX1. injection HX1 as <-.
    rewrite (stack_labels n) in HY1 by done. injection HY1 as <-.
    rewrite HS in HS1. injection HS1 as <-.
    destruct H as (H1 & H2 & H3 & _ & _ & H4). done.
Qed.

End PolicyGradientEpisode.

Lemma pg_sample_appends_one_hot_witness :
  let ag := PG.init Toy.network 2 (Some Toy.config) in
  let ag' := (PG.sample Toy.below [0; 1]%R 0%R ag).2 in
  (1 < 2)%nat ∧ PG.X ag' = [[0; 1]]%R ∧
  AgentBase.rewards (PG.base ag') = [0]%R ∧
  (∃ label, PG.Y ag' = [label] ∧ length label = 2 ∧
     ∀ j, (j < 2)%nat →
          label !! j = Some (if decide (1%nat = j) then 1%R else 0%R)).
Proof.
  intros ag.
  assert ((PG.sample Toy.below [0; 1]%R 0%R ag).1 = Return 1) as Hret.
  { apply pg_sample_below; simpl; [lra|reflexivity|discriminate|lia]. }
  exact (pg_sample_appends_one_hot Toy.below [0; 1]%R 0%R ag 2 1 eq_refl Hret).
Defined.

Lemma pg_toy_full_state (r0 r1 : R) :
  Toy.pg r0 r1
  = PG.mk (AgentBase.with_rewards [r0; r1]
             (AgentBase.init Toy.network (Some Toy.config)))
      [0; 1] (np.eye 2) [[0; 1]; [0; 1]]%R
      [Driver.one_hot 2 1; Driver.one_hot 2 1].
Proof.
  unfold Toy.pg.
  assert ((PG.sample Toy.below [0; 1]%R r0
             (PG.init Toy.network 2 (Some Toy.config))).1 = Return 1) as H0.
  { apply pg_sample_below; simpl; [lra|reflexivity|discriminate|lia]. }
  destruct (pg_sample_returns Toy.below [0; 1]%R r0
              (PG.init Toy.network 2 (Some Toy.config)) 2 1 eq_refl H0)
    as [_ ->].
  simpl.
  match goal with |- (PG.sample ?r ?s ?w ?a).2 = _ =>
    assert ((PG.sample r s w a).1 = Return 1) as H1;
    [apply pg_sample_below; simpl; [lra|reflexivity|discriminate|lia]|];
    destruct (pg_sample_returns r s w a 2 1 eq_refl H1) as [_ ->]
  end.
  done.
Qed.

Lemma pg_accumulate_stores_witness :
  AgentBase.xp (PG.base (PG.accumulate [0] 3 (Toy.pg 0 1)).2)
  = Experience.remember [[0; 1]; [0; 1]]%R
      (zip_with (λ row r, (λ y, y * r)%R <$> row)
         [Driver.one_hot 2 1; Driver.one_hot 2 1] (PG.credit 3 (Toy.pg 0 1)))
      (Experience.init 10) ∧
  PG.X (PG.accumulate [0] 3 (Toy.pg 0 1)).2 = [] ∧
  PG.Y (PG.accumulate [0] 3 (Toy.pg 0 1)).2 = [] ∧
  AgentBase.rewards (PG.base (PG.accumulate [0] 3 (Toy.pg 0 1)).2) = [].
Proof.
  destruct (pg_accumulate_stores [0] 3 (Toy.pg 0 1) 2 [[0; 1]; [0; 1]]%R)
    as (H1 & H2 & H3 & H4).
  - rewrite pg_toy_full_state. simpl.
    repeat constructor; exists 1; (split; [lia|reflexivity]).
  - by rewrite pg_toy_full_state.
  - by rewrite pg_toy_full_state.
  - by rewrite pg_toy_full_state.
  - split; [|done]. rewrite H1. by rewrite pg_toy_full_state.
Defined.

(** ** Episodes of the Deep-Q agent *)

Section DeepQEpisode.
Local Open Scope R_scope.

(** X14: with fewer than two recorded states there is no transition to
    stack: [DQN.accumulate] raises the value error of [np.stack] and
    leaves the agent, its scratch lists included, as it was. *)
Theorem dqn_accumulate_short_episode (ds : list nat) (reward : R) (ag : DQN.t) :
  (length (DQN.X ag) ≤ 1)%nat →
  DQN.accumulate ds reward ag = (Raise ValueError, ag).
Proof.
  intros Hlen. unfold DQN.accumulate, try_in, DQN.targets.
  destruct (DQN.X ag) as [|x [|y l]]; simpl in *; try done; lia.
Qed.

(** X15: with no recorded state [PG.accumulate] raises the value error of
    [np.stack] and leaves the agent as it was. *)
Theorem pg_accumulate_empty_episode (ds : list nat) (reward : R) (ag : PG.t) :
  PG.X ag = [] → PG.accumulate ds reward ag = (Raise ValueError, ag).
Proof. intros HX. unfold PG.accumulate, try_in. by rewrite HX. Qed.

Lemma insert_agree (a c : nat) (v : R) (r r' : vec) :
  length r = length r' → (c = a ∨ r !! c = r' !! c) →
  <[a := v]> r !! c = <[a := v]> r' !! c.
Proof.
  intros Hlen [->|Hc].
  - destruct (decide (a < length r)%nat) as [Hlt|Hge].
    + rewrite !list_lookup_insert_eq by lia. done.
    + rewrite !lookup_ge_None_2 by (rewrite length_insert; lia). done.
  - destruct (decide (a = c)) as [->|Hne].
    + destruct (decide (c < length r)%nat) as [Hlt|Hge].
      * rewrite !list_lookup_insert_eq by lia. done.
      * rewrite !lookup_ge_None_2 by (rewrite length_insert; lia). done.
    + by rewrite !list_lookup_insert_ne.
Qed.

Lemma write_columns_other (ix : list nat) (vals row : vec) (c : nat) :
  c ∉ ix → np.write_columns ix vals row !! c = row !! c.
Proof.
  revert vals row. induction ix as [|a ix IH]; intros vals row Hc; [done|].
  destruct vals as [|v vals]; [done|].
  apply not_elem_of_cons in Hc as [Hne Hc].
  change (np.write_columns (a :: ix) (v :: vals) row)
    with (np.write_columns ix vals (<[a := v]> row)).
  rewrite IH by done. by rewrite list_lookup_insert_ne.
Qed.

Lemma write_columns_agree (ix : list nat) (vals r r' : vec) (c : nat) :
  length r = length r' → length vals = length ix →
  c ∈ ix ∨ r !! c = r' !! c →
  np.write_columns ix vals r !! c = np.write_columns ix vals r' !! c.
Proof.
  revert vals r r'.
  induction ix as [|a ix IH]; intros vals r r' Hlen Hvals Hc.
  { destruct Hc as [Hc|Hc]; [by apply elem_of_nil in Hc|done]. }
  destruct vals as [|v vals]; [done|].
  change (np.write_columns (a :: ix) (v :: vals) r)
    with (np.write_columns ix vals (<[a := v]> r)).
  change (np.write_columns (a :: ix) (v :: vals) r')
    with (np.write_columns ix vals (<[a := v]> r')).
  apply IH; [by rewrite !length_insert|by injection Hvals|].
  destruct Hc as [Hc|Hc].
  - apply elem_of_cons in Hc as [->|Hc]; [|by left].
    right. apply insert_agree; auto.
  - right. apply insert_agree; auto.
Qed.

Lemma fit_length (k : nat) (rhs vals : vec) :
  np.fit k rhs = Return vals → length vals = k.
Proof.
  unfold np.fit. repeat (destruct (decide _)); try done.
  - by intros [= <-].
  - intros [= <-]. by rewrite length_replicate.
Qed.

(** X16: in the targets [DQN.accumulate] builds, the kept states are all
    recorded states but the last; row t is the Q-vector of step t + 1 in
    every column that is not among the actions of the steps after the
    first; and a column that is among them holds one and the same value
    in every row. *)
Theorem dqn_targets_columns (reward : R) (ag : DQN.t) (X' Y' : list vec) :
  DQN.targets reward ag = Return (X', Y') →
  X' = removelast (DQN.X ag) ∧
  length Y' = length (tl (DQN.Q ag)) ∧
  (∀ t row q c, Y' !! t = Some row → tl (DQN.Q ag) !! t = Some q →
                c ∉ tl (DQN.A ag) → row !! c = q !! c) ∧
  (∀ t t' row row' c, Y' !! t = Some row → Y' !! t' = Some row' →
                      c ∈ tl (DQN.A ag) → row !! c = row' !! c).
Proof.
  unfold DQN.targets.
  destruct (np.stack (removelast (DQN.X ag))) as [X1|] eqn:HX; [|done].
  destruct (np.stack (tl (DQN.Q ag))) as [Y1|] eqn:HY; [|done].
  destruct (np.max_axis1 Y1) as [m|]; [|done].
  destruct (np.broadcast _ _ _) as [rhs|]; [|done].
  unfold np.assign_columns.
  destruct (forallb _ _); [|done].
  destruct (np.fit _ rhs) as [vals|] eqn:Hfit; [|done].
  intros [= <- <-].
  apply stack_returns in HX as (-> & _ & _).
  apply stack_returns in HY as (-> & _ & Hrows).
  apply fit_length in Hfit.
  split; [done|]. split; [by rewrite length_fmap|]. split.
  - intros t row q c Hrow Hq Hc.
    rewrite list_lookup_fmap, Hq in Hrow. injection Hrow as <-.
    by apply write_columns_other.
  - intros t t' row row' c Hrow Hrow' Hc.
    rewrite list_lookup_fmap in Hrow, Hrow'.
    destruct (tl (DQN.Q ag) !! t) as [q|] eqn:Hq; [|done].
    destruct (tl (DQN.Q ag) !! t') as [q'|] eqn:Hq'; [|done].
    injection Hrow as <-. injection Hrow' as <-.
    apply write_columns_agree; [|done|by left].
    apply Hrows; by eapply list_elem_of_lookup_2.
Qed.

Lemma dqn_sample_same_but_R (rng : Random) (state : vec) (r r' : R)
    (ag ag' : DQN.t) :
  Driver.same_but_R ag ag' →
  (DQN.sample rng state r ag).1 = (DQN.sample rng state r' ag').1 ∧
  Driver.same_but_R (DQN.sample rng state r ag).2 (DQN.sample rng state r' ag').2.
Proof.
  destruct ag as [b X Q Rs A n], ag' as [b' X1 Q1 Rs' A1 n'].
  unfold Driver.same_but_R. simpl. intros (<- & <- & <- & <- & <-).
  unfold DQN.sample, try_in, DQN.pick. simpl.
  destruct (decide _); [by destruct (np.argmax _)|].
  by destruct (decide _).
Qed.

Lemma dqn_accumulate_same_but_R (ds : list nat) (reward : R) (ag ag' : DQN.t) :
  Driver.same_but_R ag ag' →
  (DQN.accumulate ds reward ag).1 = (DQN.accumulate ds reward ag').1 ∧
  Driver.same_but_R (DQN.accumulate ds reward ag).2
    (DQN.accumulate ds reward ag').2.
Proof.
  destruct ag as [b X Q Rs A n], ag' as [b' X1 Q1 Rs' A1 n'].
  unfold Driver.same_but_R. simpl. intros (<- & <- & <- & <- & <-).
  unfold DQN.accumulate, try_in.
  change (DQN.targets reward (DQN.mk b X Q Rs' A n))
    with (DQN.targets reward (DQN.mk b X Q Rs A n)).
  destruct (DQN.targets reward (DQN.mk b X Q Rs A n)) as [XY|e]; [|done].
  simpl.
  match goal with
  | |- context [AgentBase.learn_batch ds ?b] =>
      destruct (AgentBase.learn_batch ds b) as [[[c|]|e] b']
  end; done.
Qed.

(** X17: the step rewards passed to [DQN.sample] never reach the targets:
    two episodes with the same draws and states but any step rewards give
    the same outcome of [DQN.accumulate] and the same agent, buffer
    included, up to the list [R] of the recorded rewards. *)
Theorem dqn_step_rewards_unused (steps : list (Random * vec)) (rs rs' : vec)
    (ds : list nat) (reward : R) (ag : DQN.t) :
  length rs = length rs' →
  let a := DQN.accumulate ds reward (Driver.dqn_episode steps rs ag) in
  let a' := DQN.accumulate ds reward (Driver.dqn_episode steps rs' ag) in
  a.1 = a'.1 ∧ Driver.same_but_R a.2 a'.2.
Proof.
  intros Hlen a a'. subst a a'. apply dqn_accumulate_same_but_R.
  assert (Driver.same_but_R ag ag) as Hag by done.
  revert Hag. generalize ag at 1 3. generalize ag.
  revert rs rs' Hlen. unfold Driver.dqn_episode.
  induction steps as [|[rng state] steps IH]; intros rs rs' Hlen ag1 ag2 Hag;
    [done|].
  destruct rs as [|r rs], rs' as [|r' rs']; try done.
  simpl. apply IH; [by injection Hlen|].
  by apply dqn_sample_same_but_R.
Qed.




End DeepQEpisode.

Lemma dqn_accumulate_short_episode_witness :
  DQN.accumulate [0] 10 (DQN.init Toy.network 2 (Some Toy.config))
  = (Raise ValueError, DQN.init Toy.network 2 (Some Toy.config)).
Proof.
  apply dqn_accumulate_short_episode. simpl. lia.
Defined.

Lemma pg_accumulate_empty_episode_witness :
  PG.accumulate [0] 10 (PG.init Toy.network 2 (Some Toy.config))
  = (Raise ValueError, PG.init Toy.network 2 (Some Toy.config)).
Proof.
  apply pg_accumulate_empty_episode. reflexivity.
Defined.

Lemma dqn_targets_columns_witness :
  [[1; 2]]%R = removelast (DQN.X Toy.dqn) ∧
  length [[3; 10 + 1 / 2 * 5]]%R = length (tl (DQN.Q Toy.dqn)).
Proof.
  destruct (dqn_targets_columns 10 Toy.dqn [[1; 2]]%R [[3; 10 + 1 / 2 * 5]]%R
              dqn_toy_targets) as (H1 & H2 & _).
  split; [exact H1|exact H2].
Defined.

Lemma dqn_step_rewards_unused_witness :
  let steps := [(Toy.above, [1; 2]%R); (Toy.below, [3; 5]%R)] in
  (DQN.accumulate [0] 10 (Driver.dqn_episode steps [0; 7]%R
                            (DQN.init Toy.network 2 (Some Toy.config)))).1
  = (DQN.accumulate [0] 10 (Driver.dqn_episode steps [5; 5]%R
                              (DQN.init Toy.network 2 (Some Toy.config)))).1.
Proof.
  intros steps.
  destruct (dqn_step_rewards_unused steps [0; 7]%R [5; 5]%R [0] 10%R
              (DQN.init Toy.network 2 (Some Toy.config)) eq_refl) as [H _].
  exact H.
Defined.

(** ** The hill-climbing agent over episodes *)

Section HillClimbingEpisode.
Local Open Scope R_scope.

Lemma argmax_from_first_max (xs pre : vec) (best : R) (besti : nat) :
  pre !! besti = Some best →
  (∀ j y, pre !! j = Some y → y <= best) →
  (∀ j y, (j < besti)%nat → pre !! j = Some y → y < best) →
  ∃ m, (pre ++ xs) !! np.argmax_from best besti (length pre) xs = Some m ∧
       (∀ j y, (pre ++ xs) !! j = Some y → y <= m) ∧
       (∀ j y, (j < np.argmax_from best besti (length pre) xs)%nat →
               (pre ++ xs) !! j = Some y → y < m).
Proof.
  revert pre best besti.
  induction xs as [|x xs IH]; intros pre best besti Hbest Hall Hfirst.
  { simpl. rewrite app_nil_r. eauto. }
  assert (besti < length pre)%nat as Hlt by (by eapply lookup_lt_Some).
  replace (pre ++ x :: xs) with ((pre ++ [x]) ++ xs)
    by (by rewrite <- app_assoc).
  simpl. destruct (decide (best < x)) as [Hx|Hx].
  - replace (S (length pre)) with (length (pre ++ [x]))
      by (rewrite length_app; simpl; lia).
    apply IH.
    + by rewrite lookup_app_r, Nat.sub_diag by lia.
    + intros j y Hj. apply lookup_app_Some in Hj as [Hj|[_ Hj]].
      * specialize (Hall j y Hj). lra.
      * apply list_lookup_singleton_Some in Hj as [_ <-]. lra.
    + intros j y Hjlt Hj. rewrite lookup_app_l in Hj by done.
      specialize (Hall j y Hj). lra.
  - replace (S (length pre)) with (length (pre ++ [x]))
      by (rewrite length_app; simpl; lia).
    apply IH.
    + by rewrite lookup_app_l.
    + intros j y Hj. apply lookup_app_Some in Hj as [Hj|[_ Hj]].
      * by apply (Hall j).
      * apply list_lookup_singleton_Some in Hj as [_ <-]. lra.
    + intros j y Hjlt Hj. rewrite lookup_app_l in Hj by lia.
      by apply (Hfirst j).
Qed.

Lemma argmax_first_max (xs : vec) (a : nat) :
  np.argmax xs = Return a →
  ∃ m, xs !! a = Some m ∧ (∀ j y, xs !! j = Some y → y <= m) ∧
       (∀ j y, (j < a)%nat → xs !! j = Some y → y < m).
Proof.
  destruct xs as [|x xs]; [done|]. intros [= <-].
  apply (argmax_from_first_max xs [x] x 0); [done| |].
  - intros j y Hj. apply list_lookup_singleton_Some in Hj as [_ <-]. lra.
  - intros j y Hj. lia.
Qed.

Lemma hc_sample_state (state : vec) (reward : option R) (ag : HillClimbing.t) :
  (HillClimbing.sample state reward ag).2
  = HillClimbing.mk
      (AgentBase.with_rewards
         (AgentBase.rewards (HillClimbing.base ag) + default 0 reward)
         (HillClimbing.base ag))
      (HillClimbing.bestreward ag).
Proof.
  unfold HillClimbing.sample, try_in. by destruct (np.argmax _).
Qed.

(** X19: the action [HillClimbing.sample] returns is the first index at
    which the model's output is largest: no entry is above the entry
    there, and every earlier entry is strictly below it. *)
Theorem hc_sample_first_maximum (state : vec) (reward : option R)
    (ag : HillClimbing.t) (a : nat) :
  (HillClimbing.sample state reward ag).1 = Return a →
  let pred := Net.predict (AgentBase.net (HillClimbing.base ag)) state in
  ∃ m, pred !! a = Some m ∧ (∀ j y, pred !! j = Some y → y <= m) ∧
       (∀ j y, (j < a)%nat → pred !! j = Some y → y < m).
Proof.
  unfold HillClimbing.sample, try_in. simpl.
  destruct (np.argmax _) as [a'|e] eqn:Hmax; simpl; [|done].
  intros [= ->]. by apply argmax_first_max.
Qed.

(** X20: an empty prediction makes [HillClimbing.sample] raise the value
    error of [argmax]; the reward of the call has been added to the
    episode total all the same. *)
Theorem hc_sample_empty_prediction (state : vec) (reward : option R)
    (ag : HillClimbing.t) :
  Net.predict (AgentBase.net (HillClimbing.base ag)) state = [] →
  (HillClimbing.sample state reward ag).1 = Raise ValueError ∧
  AgentBase.rewards (HillClimbing.base (HillClimbing.sample state reward ag).2)
  = AgentBase.rewards (HillClimbing.base ag) + default 0 reward.
Proof.
  intros Hpred. split; [|by rewrite hc_sample_state].
  unfold HillClimbing.sample, try_in. simpl. by rewrite Hpred.
Qed.

(** X21: over the calls of [sample] of an episode the accumulator grows
    by the sum of the rewards, an absent reward counting as 0, whether
    the calls return or raise; the best reward is not touched. *)
Theorem hc_episode_total (steps : list (vec * option R)) (ag : HillClimbing.t) :
  AgentBase.rewards (HillClimbing.base (Driver.hc_episode steps ag))
  = AgentBase.rewards (HillClimbing.base ag)
    + np.sum ((λ sr, default 0 sr.2) <$> steps) ∧
  HillClimbing.bestreward (Driver.hc_episode steps ag)
  = HillClimbing.bestreward ag.
Proof.
  revert ag. unfold Driver.hc_episode.
  induction steps as [|[state reward] steps IH]; intros ag.
  { simpl. split; [lra|done]. }
  simpl. destruct (IH (HillClimbing.sample state reward ag).2) as [-> ->].
  rewrite hc_sample_state. split; [|done].
  unfold np.sum. simpl. apply Rplus_assoc.
Qed.

Lemma hc_accumulate_best (randn : nat → R) (reward : R) (ag : HillClimbing.t) :
  HillClimbing.bestreward (HillClimbing.accumulate randn reward ag)
  = Rmax (HillClimbing.bestreward ag) (AgentBase.rewards (HillClimbing.base ag)).
Proof.
  unfold HillClimbing.accumulate.
  destruct (decide _) as [Hlt|Hge]; simpl.
  - by rewrite Rmax_right by lra.
  - rewrite Rmax_left; [done|]. apply Rnot_lt_le in Hge. lra.
Qed.

(** X22: the best reward never decreases, whatever calls the agent goes
    through; it starts at 0, so it is never negative and an agent whose
    episode totals are never positive never records a best. *)
Theorem hc_best_never_decreases (ops : list Driver.hc_op) :
  (∀ ag, HillClimbing.bestreward ag
         <= HillClimbing.bestreward (Driver.hc_run ops ag)) ∧
  (∀ network agentconfig,
     0 <= HillClimbing.bestreward
            (Driver.hc_run ops (HillClimbing.init network agentconfig))).
Proof.
  assert (∀ ag, HillClimbing.bestreward ag
                <= HillClimbing.bestreward (Driver.hc_run ops ag)) as Hmono.
  { unfold Driver.hc_run. induction ops as [|o ops IH]; intros ag; [simpl; lra|].
    simpl. eapply Rle_trans; [|apply IH].
    destruct o as [|state reward|randn reward]; unfold Driver.hc_step.
    - simpl. lra.
    - rewrite hc_sample_state. simpl. lra.
    - rewrite hc_accumulate_best. apply Rmax_l. }
  split; [exact Hmono|].
  intros network agentconfig.
  apply (Hmono (HillClimbing.init network agentconfig)).
Qed.

(** X23: the weights of the best episode can be restored: when
    [HillClimbing.accumulate] saw an episode total above the previous
    best, a following [pull_weights] puts the weights the model had
    before the perturbation back; otherwise it puts the previous shadow
    weights back. *)
Theorem hc_pull_restores_best (randn : nat → R) (reward : R)
    (ag : HillClimbing.t) :
  let restored :=
    AgentBase.pull_weights
      (HillClimbing.base (HillClimbing.accumulate randn reward ag)) in
  (HillClimbing.bestreward ag < AgentBase.rewards (HillClimbing.base ag) →
   Net.get_weights (AgentBase.net restored)
   = weights (AgentBase.net (HillClimbing.base ag))) ∧
  (¬ HillClimbing.bestreward ag < AgentBase.rewards (HillClimbing.base ag) →
   Net.get_weights (AgentBase.net restored)
   = AgentBase.shadow_net (HillClimbing.base ag)).
Proof.
  intros restored. subst restored. unfold HillClimbing.accumulate.
  destruct (decide _) as [Hlt|Hge]; simpl; split; done.
Qed.

End HillClimbingEpisode.

Lemma hc_sample_first_maximum_witness :
  ∃ m, [1; 2]%R !! 1%nat = Some m ∧
       (∀ j y, [1; 2]%R !! j = Some y → (y <= m)%R) ∧
       (∀ j y, (j < 1)%nat → [1; 2]%R !! j = Some y → (y < m)%R).
Proof.
  assert ((HillClimbing.sample [1; 2]%R (Some 3%R)
             (HillClimbing.init Toy.network (Some Toy.config))).1 = Return 1)
    as Hret.
  { unfold HillClimbing.sample, try_in. simpl. by rewrite decide_True by lra. }
  exact (hc_sample_first_maximum [1; 2]%R (Some 3%R)
           (HillClimbing.init Toy.network (Some Toy.config)) 1 Hret).
Defined.

Lemma hc_sample_empty_prediction_witness :
  (HillClimbing.sample [] (Some 3%R)
     (HillClimbing.init Toy.network (Some Toy.config))).1 = Raise ValueError ∧
  AgentBase.rewards
    (HillClimbing.base
       (HillClimbing.sample [] (Some 3%R)
          (HillClimbing.init Toy.network (Some Toy.config))).2)
  = (0 + 3)%R.
Proof.
  exact (hc_sample_empty_prediction [] (Some 3%R)
           (HillClimbing.init Toy.network (Some Toy.config)) eq_refl).
Defined.

Lemma hc_pull_restores_best_witness :
  Net.get_weights
    (AgentBase.net
       (AgentBase.pull_weights
          (HillClimbing.base (HillClimbing.accumulate (λ _, 1%R) 0%R (Toy.hc 3)))))
  = [4; 2]%R.
Proof.
  destruct (hc_pull_restores_best (λ _, 1%R) 0%R (Toy.hc 3)) as [H _].
  apply H. simpl. lra.
Defined.
